(** * Drive Chatbot front end: session, chat turn and folder scope

    A shallow embedding of the client-side orchestration code of the
    Drive Chatbot front end:

    - [frontend/lib/api.ts]: [sendChatMessage], [fetchFolders],
      [fetchUserInfo], [logoutUser];
    - [frontend/app/page.tsx]: the mount effect of [Home] (OAuth callback
      ingestion and session restore) and [handleLogout];
    - [frontend/components/ChatWindow.tsx]: [handleSend], [handleClear]
      and the two stage timers;
    - [frontend/components/FolderSelector.tsx]: the folder loading effect.

    Conventions.  A JavaScript string is its sequence of UTF-16 code
    units.  An [async] function is split at its [await]: the part before
    it runs when the function is called, the part after it runs when the
    awaited promise settles, and the locals that live across the [await]
    are kept in a record.  The state of a React component is a record; an
    event handler runs against the state of the latest render, and an
    effect runs after a render in which one of its dependencies changed.
    The body of a response is read at the TypeScript type the source gives
    it.  What [Math.random] and [new Date] return is an argument of the
    event that needs it. *)

From Stdlib Require Import NArith ZArith Ascii String DecimalN Lia.
From stdpp Require Import base option list gmap.

Set Default Proof Using "Type".
Set Warnings "-register-all".
Local Open Scope N_scope.

(** ** JavaScript values used by the code *)

Module JS.

(** A string is its sequence of UTF-16 code units. *)
Definition jsstring : Type := list N.

(** An ASCII literal of the source as code units. *)
Definition lit (s : string) : jsstring :=
  (fun a : ascii => N_of_ascii a) <$> list_ascii_of_string s.

(** [!s] is true for the empty string only. *)
Definition truthy (s : jsstring) : bool :=
  match s with
  | [] => false
  | _ :: _ => true
  end.

(** Truthiness of [string | null]. *)
Definition truthy_opt (o : option jsstring) : bool :=
  match o with
  | Some s => truthy s
  | None => false
  end.

(** [a || b] with [a : string | null] and [b : string]. *)
Definition or_else (a : option jsstring) (b : jsstring) : jsstring :=
  match a with
  | Some s => if truthy s then s else b
  | None => b
  end.

(** ECMAScript WhiteSpace and LineTerminator code points, the ones
    [String.prototype.trim] strips. *)
Definition is_white_space (c : N) : bool :=
  (c =? 0x9) || (c =? 0xA) || (c =? 0xB) || (c =? 0xC) || (c =? 0xD)
  || (c =? 0x20) || (c =? 0xA0) || (c =? 0x1680)
  || ((0x2000 <=? c) && (c <=? 0x200A))
  || (c =? 0x2028) || (c =? 0x2029) || (c =? 0x202F) || (c =? 0x205F)
  || (c =? 0x3000) || (c =? 0xFEFF).

Fixpoint trimStart (s : jsstring) : jsstring :=
  match s with
  | [] => []
  | c :: r => if is_white_space c then trimStart r else s
  end.

Definition trimEnd (s : jsstring) : jsstring :=
  rev (trimStart (rev s)).

Definition trim (s : jsstring) : jsstring :=
  trimEnd (trimStart s).

(** Number-to-string of a non-negative integer (template literals). *)
Fixpoint digits_of_uint (d : Decimal.uint) : jsstring :=
  match d with
  | Decimal.Nil => []
  | Decimal.D0 r => 48 :: digits_of_uint r
  | Decimal.D1 r => 49 :: digits_of_uint r
  | Decimal.D2 r => 50 :: digits_of_uint r
  | Decimal.D3 r => 51 :: digits_of_uint r
  | Decimal.D4 r => 52 :: digits_of_uint r
  | Decimal.D5 r => 53 :: digits_of_uint r
  | Decimal.D6 r => 54 :: digits_of_uint r
  | Decimal.D7 r => 55 :: digits_of_uint r
  | Decimal.D8 r => 56 :: digits_of_uint r
  | Decimal.D9 r => 57 :: digits_of_uint r
  end.

Definition string_of_N (n : N) : jsstring :=
  digits_of_uint (N.to_uint n).

(** [Array.prototype.slice(-k)]: the last [k] elements, all of them when
    there are fewer. *)
Definition slice_last {A} (k : nat) (l : list A) : list A :=
  drop (length l - k)%nat l.

(** Thrown values.  [Error], [TypeError] and [SyntaxError] are instances
    of [Error] and carry a message; [Thrown] is any other thrown value. *)
Inductive exn : Type :=
| Error (message : jsstring)
| TypeError (message : jsstring)
| SyntaxError (message : jsstring)
| Thrown.

(** [err instanceof Error ? err.message : fallback]. *)
Definition message_or (fallback : jsstring) (e : exn) : jsstring :=
  match e with
  | Error m | TypeError m | SyntaxError m => m
  | Thrown => fallback
  end.

(** The outcome of a call that may throw (or of an awaited promise). *)
Inductive completion (A : Type) : Type :=
| Return (a : A)
| Throw (e : exn).
Arguments Return {A} a.
Arguments Throw {A} e.

End JS.
Export JS.


(** ** JSON, as [JSON.stringify] and [JSON.parse] treat it

    Objects keep their properties in insertion order.  A number is kept as
    the text of its literal. *)

Module JSON.

Inductive json : Type :=
| JNull
| JBool (b : bool)
| JNum (lexeme : jsstring)
| JStr (s : jsstring)
| JArr (items : list json)
| JObj (props : list (jsstring * json)).

Definition is_high_surrogate (c : N) : bool := (0xD800 <=? c) && (c <=? 0xDBFF).
Definition is_low_surrogate (c : N) : bool := (0xDC00 <=? c) && (c <=? 0xDFFF).

Definition hex_digit (n : N) : N := if n <? 10 then 48 + n else 87 + n.

(** The six code units of a backslash-u escape, lower-case hexadecimal. *)
Definition unicode_escape (c : N) : jsstring :=
  [0x5C; 0x75; hex_digit (c / 4096 mod 16); hex_digit (c / 256 mod 16);
   hex_digit (c / 16 mod 16); hex_digit (c mod 16)].

(** QuoteJSONString on one code unit that is not a surrogate. *)
Definition quote_unit (c : N) : jsstring :=
  if c =? 0x8 then lit "\b"
  else if c =? 0x9 then lit "\t"
  else if c =? 0xA then lit "\n"
  else if c =? 0xC then lit "\f"
  else if c =? 0xD then lit "\r"
  else if c =? 0x22 then [0x5C; 0x22]
  else if c =? 0x5C then [0x5C; 0x5C]
  else if c <? 0x20 then unicode_escape c
  else [c].

(** A surrogate pair is copied; a lone surrogate is escaped. *)
Fixpoint quote_units (s : jsstring) : jsstring :=
  match s with
  | [] => []
  | c :: r =>
      if is_high_surrogate c then
        match r with
        | d :: r' =>
            if is_low_surrogate d then c :: d :: quote_units r'
            else unicode_escape c ++ quote_units r
        | [] => unicode_escape c
        end
      else if is_low_surrogate c then unicode_escape c ++ quote_units r
      else quote_unit c ++ quote_units r
  end.

Definition quote (s : jsstring) : jsstring :=
  [0x22] ++ quote_units s ++ [0x22].

Fixpoint stringify (v : json) : jsstring :=
  match v with
  | JNull => lit "null"
  | JBool true => lit "true"
  | JBool false => lit "false"
  | JNum lexeme => lexeme
  | JStr s => quote s
  | JArr items =>
      [0x5B] ++
      (fix elements (l : list json) : jsstring :=
         match l with
         | [] => []
         | [x] => stringify x
         | x :: r => stringify x ++ [0x2C] ++ elements r
         end) items ++ [0x5D]
  | JObj props =>
      [0x7B] ++
      (fix members (l : list (jsstring * json)) : jsstring :=
         match l with
         | [] => []
         | [(k, x)] => quote k ++ [0x3A] ++ stringify x
         | (k, x) :: r => quote k ++ [0x3A] ++ stringify x ++ [0x2C] ++ members r
         end) props ++ [0x7D]
  end.

(** *** Parsing *)

Definition is_json_ws (c : N) : bool :=
  (c =? 0x20) || (c =? 0x9) || (c =? 0xA) || (c =? 0xD).

Fixpoint skip_ws (s : jsstring) : jsstring :=
  match s with
  | [] => []
  | c :: r => if is_json_ws c then skip_ws r else s
  end.

Definition hex_value (c : N) : option N :=
  if (48 <=? c) && (c <=? 57) then Some (c - 48)
  else if (97 <=? c) && (c <=? 102) then Some (c - 87)
  else if (65 <=? c) && (c <=? 70) then Some (c - 55)
  else None.

(** The character a one-letter escape stands for. *)
Definition unescape (e : N) : option N :=
  if e =? 0x22 then Some 0x22
  else if e =? 0x5C then Some 0x5C
  else if e =? 0x2F then Some 0x2F
  else if e =? 0x62 then Some 0x8
  else if e =? 0x66 then Some 0xC
  else if e =? 0x6E then Some 0xA
  else if e =? 0x72 then Some 0xD
  else if e =? 0x74 then Some 0x9
  else None.

(** The characters of a string literal after its opening quote, up to and
    including the closing quote; [acc] holds the decoded units, last
    first. *)
Fixpoint parse_chars (s : jsstring) (acc : jsstring) : option (jsstring * jsstring) :=
  match s with
  | [] => None
  | c :: r =>
      if c =? 0x22 then Some (rev acc, r)
      else if c =? 0x5C then
        match r with
        | [] => None
        | e :: r1 =>
            if e =? 0x75 then
              match r1 with
              | h1 :: h2 :: h3 :: h4 :: r2 =>
                  match hex_value h1, hex_value h2, hex_value h3, hex_value h4 with
                  | Some a, Some b, Some c', Some d =>
                      parse_chars r2 (a * 4096 + b * 256 + c' * 16 + d :: acc)
                  | _, _, _, _ => None
                  end
              | _ => None
              end
            else
              match unescape e with
              | Some u => parse_chars r1 (u :: acc)
              | None => None
              end
        end
      else if c <? 0x20 then None
      else parse_chars r (c :: acc)
  end.

Definition is_digit (c : N) : bool := (48 <=? c) && (c <=? 57).

Fixpoint span_digits (s : jsstring) : jsstring * jsstring :=
  match s with
  | [] => ([], [])
  | c :: r =>
      if is_digit c then let '(d, r') := span_digits r in (c :: d, r')
      else ([], s)
  end.

Definition parse_int_part (s : jsstring) : option (jsstring * jsstring) :=
  match s with
  | [] => None
  | c :: r =>
      if c =? 48 then Some ([c], r)
      else if is_digit c then let '(d, r') := span_digits r in Some (c :: d, r')
      else None
  end.

Definition parse_frac_part (s : jsstring) : option (jsstring * jsstring) :=
  match s with
  | c :: r =>
      if c =? 0x2E then
        match span_digits r with
        | ([], _) => None
        | (d, r') => Some (c :: d, r')
        end
      else Some ([], s)
  | [] => Some ([], s)
  end.

Definition parse_exp_part (s : jsstring) : option (jsstring * jsstring) :=
  match s with
  | c :: r =>
      if (c =? 0x65) || (c =? 0x45) then
        let '(sign, r0) :=
          match r with
          | g :: r' => if (g =? 0x2B) || (g =? 0x2D) then ([g], r') else ([], r)
          | [] => ([], r)
          end in
        match span_digits r0 with
        | ([], _) => None
        | (d, r') => Some (c :: sign ++ d, r')
        end
      else Some ([], s)
  | [] => Some ([], s)
  end.

Definition parse_number (s : jsstring) : option (jsstring * jsstring) :=
  let '(sign, s0) :=
    match s with
    | c :: r => if c =? 0x2D then ([c], r) else ([], s)
    | [] => ([], s)
    end in
  match parse_int_part s0 with
  | None => None
  | Some (i, s1) =>
      match parse_frac_part s1 with
      | None => None
      | Some (f, s2) =>
          match parse_exp_part s2 with
          | None => None
          | Some (e, s3) => Some (sign ++ i ++ f ++ e, s3)
          end
      end
  end.

Fixpoint strip_prefix (p s : jsstring) : option jsstring :=
  match p, s with
  | [], _ => Some s
  | a :: p', b :: s' => if a =? b then strip_prefix p' s' else None
  | _ :: _, [] => None
  end.

(** Defining a property: a repeated key keeps its place and takes the
    later value. *)
Fixpoint set_prop (k : jsstring) (v : json) (props : list (jsstring * json))
  : list (jsstring * json) :=
  match props with
  | [] => [(k, v)]
  | (k', v') :: r =>
      if decide (k' = k) then (k, v) :: r else (k', v') :: set_prop k v r
  end.

Fixpoint parse_value (fuel : nat) (s : jsstring) : option (json * jsstring) :=
  match fuel with
  | O => None
  | S fuel' =>
      match skip_ws s with
      | [] => None
      | c :: r =>
          if c =? 0x22 then
            match parse_chars r [] with
            | Some (str, r') => Some (JStr str, r')
            | None => None
            end
          else if c =? 0x5B then
            match skip_ws r with
            | d :: r' =>
                if d =? 0x5D then Some (JArr [], r')
                else parse_elements fuel' r []
            | [] => None
            end
          else if c =? 0x7B then
            match skip_ws r with
            | d :: r' =>
                if d =? 0x7D then Some (JObj [], r')
                else parse_members fuel' r []
            | [] => None
            end
          else
            match strip_prefix (lit "null") (c :: r) with
            | Some r' => Some (JNull, r')
            | None =>
            match strip_prefix (lit "true") (c :: r) with
            | Some r' => Some (JBool true, r')
            | None =>
            match strip_prefix (lit "false") (c :: r) with
            | Some r' => Some (JBool false, r')
            | None =>
            match parse_number (c :: r) with
            | Some (lexeme, r') => Some (JNum lexeme, r')
            | None => None
            end end end end
      end
  end
with parse_elements (fuel : nat) (s : jsstring) (acc : list json)
  : option (json * jsstring) :=
  match fuel with
  | O => None
  | S fuel' =>
      match parse_value fuel' s with
      | None => None
      | Some (v, r) =>
          match skip_ws r with
          | d :: r' =>
              if d =? 0x2C then parse_elements fuel' r' (acc ++ [v])
              else if d =? 0x5D then Some (JArr (acc ++ [v]), r')
              else None
          | [] => None
          end
      end
  end
with parse_members (fuel : nat) (s : jsstring) (acc : list (jsstring * json))
  : option (json * jsstring) :=
  match fuel with
  | O => None
  | S fuel' =>
      match skip_ws s with
      | q :: r =>
          if q =? 0x22 then
            match parse_chars r [] with
            | None => None
            | Some (k, r1) =>
                match skip_ws r1 with
                | colon :: r2 =>
                    if colon =? 0x3A then
                      match parse_value fuel' r2 with
                      | None => None
                      | Some (v, r3) =>
                          match skip_ws r3 with
                          | d :: r4 =>
                              if d =? 0x2C then parse_members fuel' r4 (set_prop k v acc)
                              else if d =? 0x7D then Some (JObj (set_prop k v acc), r4)
                              else None
                          | [] => None
                          end
                      end
                    else None
                | [] => None
                end
            end
          else None
      | [] => None
      end
  end.

(** [JSON.parse]: one value, white space around it, nothing else.  A text
    that is not JSON throws a [SyntaxError]. *)
Definition parse (s : jsstring) : completion json :=
  match parse_value (2 * length s + 2) s with
  | Some (v, r) =>
      match skip_ws r with
      | [] => Return v
      | _ :: _ => Throw (SyntaxError (lit "Unexpected token in JSON"))
      end
  | None => Throw (SyntaxError (lit "Unexpected token in JSON"))
  end.

End JSON.


(** ** The interfaces of [lib/types.ts] *)

Inductive Role : Type := user | assistant.

Module IntermediateStep.
Record t : Type := {
  thought : jsstring;
  action : jsstring;
  action_input : JSON.json;
  observation : jsstring
}.
End IntermediateStep.

Module Message.
Record t : Type := {
  id : jsstring;
  role : Role;
  content : jsstring;
  timestamp : Z;
  steps : option (list IntermediateStep.t);
  isError : option bool;
  tokens : option Z
}.
End Message.

Module ChatResponse.
Record t : Type := {
  answer : jsstring;
  intermediate_steps : list IntermediateStep.t;
  tokens : Z;
  error : option jsstring
}.
End ChatResponse.

Module User.
Record t : Type := {
  email : jsstring;
  name : jsstring;
  picture : jsstring;
  token : jsstring
}.
End User.

Module Folder.
Record t : Type := {
  id : jsstring;
  name : jsstring
}.
End Folder.

(** ** The browser state the code reads and writes *)

Module Browser.

(** [localStorage]; the name/value pairs of [window.location.search] in the
    order [URLSearchParams] lists them; and whether an assignment to
    [window.location.href] has started a navigation to the entry page. *)
Record t : Type := {
  localStorage : gmap jsstring jsstring;
  search : list (jsstring * jsstring);
  navigating : bool
}.

Definition getItem (k : jsstring) (b : t) : option jsstring :=
  localStorage b !! k.

Definition setItem (k v : jsstring) (b : t) : t :=
  {| localStorage := <[k := v]> (localStorage b);
     search := search b;
     navigating := navigating b |}.

Definition removeItem (k : jsstring) (b : t) : t :=
  {| localStorage := delete k (localStorage b);
     search := search b;
     navigating := navigating b |}.

(** [new URLSearchParams(window.location.search).get(name)]: the first
    value under that name, [null] when there is none. *)
Fixpoint params_get (name : jsstring) (params : list (jsstring * jsstring))
  : option jsstring :=
  match params with
  | [] => None
  | (k, v) :: r => if decide (k = name) then Some v else params_get name r
  end.

(** [window.history.replaceState] to the root path: the address carries no
    query afterwards. *)
Definition replaceState_root (b : t) : t :=
  {| localStorage := localStorage b; search := []; navigating := navigating b |}.

(** Assigning the root path to [window.location.href]. *)
Definition set_href_root (b : t) : t :=
  {| localStorage := localStorage b; search := search b; navigating := true |}.

End Browser.

(** ** [lib/api.ts] *)

Module Api.

(** A response as the code reads it: its status, its body as text, and
    the result of [response.json()] at the type the source gives it. *)
Record Response (A : Type) : Type := {
  status : N;
  text : jsstring;
  json : completion A
}.
Arguments status {A} _.
Arguments text {A} _.
Arguments json {A} _.

Definition ok {A} (response : Response A) : bool :=
  (200 <=? status response) && (status response <=? 299).

(** How the promise of [fetch] settles: with a response of any status, or
    rejected on a transport fault. *)
Inductive settled (A : Type) : Type :=
| Fulfilled (response : Response A)
| Rejected (e : exn).
Arguments Fulfilled {A} response.
Arguments Rejected {A} e.

(** One entry of the request's [history]. *)
Record HistoryEntry : Type := {
  role : Role;
  content : jsstring
}.

(** The request [sendChatMessage] passes to [fetch]: POST [/api/chat] with
    [Authorization: Bearer token] and the body
    [{message, history, folder_id}]. *)
Record ChatRequest : Type := {
  message : jsstring;
  history : list HistoryEntry;
  token : jsstring;
  folder_id : option jsstring
}.

Definition SessionExpired : exn :=
  Error (lit "Session expired. Please log in again.").

Definition ApiError (status : N) (body : jsstring) : exn :=
  Error (lit "API error " ++ string_of_N status ++ lit ": " ++ body).

(** [sendChatMessage] from the point where the promise of [fetch]
    settles. *)
Definition sendChatMessage (outcome : settled ChatResponse.t) (b : Browser.t)
  : completion ChatResponse.t * Browser.t :=
  match outcome with
  | Rejected e => (Throw e, b)
  | Fulfilled response =>
      if status response =? 401 then
        (Throw SessionExpired,
         Browser.set_href_root (Browser.removeItem (lit "user") b))
      else if negb (ok response) then
        (Throw (ApiError (status response) (text response)), b)
      else
        (json response, b)
  end.

(** The body of the folder listing: [folders] may be missing. *)
Record FoldersBody : Type := {
  folders : option (list Folder.t)
}.

(** [fetchFolders] from the point where the promise of [fetch] settles.
    The function has no [try]: a rejection propagates. *)
Definition fetchFolders (outcome : settled FoldersBody)
  : completion (list Folder.t) :=
  match outcome with
  | Rejected e => Throw e
  | Fulfilled response =>
      if negb (ok response) then Return []
      else
        match json response with
        | Throw e => Throw e
        | Return data => Return (default [] (folders data))
        end
  end.

(** The body of [/oauth/me]. *)
Record UserInfo : Type := {
  info_email : jsstring;
  info_name : jsstring;
  info_picture : jsstring
}.

(** [fetchUserInfo] from the point where the promise of [fetch] settles.
    The whole body is inside [try ... catch { return null }]. *)
Definition fetchUserInfo (token : jsstring) (outcome : settled UserInfo)
  : completion (option User.t) :=
  match outcome with
  | Rejected _ => Return None
  | Fulfilled response =>
      if negb (ok response) then Return None
      else
        match json response with
        | Throw _ => Return None
        | Return data =>
            Return (Some {| User.email := info_email data;
                            User.name := info_name data;
                            User.picture := info_picture data;
                            User.token := token |})
        end
  end.

(** [logoutUser] from the point where the promise of [fetch] settles: the
    outcome is ignored and the stored session removed. *)
Definition logoutUser (outcome : settled unit) (b : Browser.t) : Browser.t :=
  Browser.removeItem (lit "user") b.

End Api.

(** ** [components/ChatWindow.tsx] *)

Module ChatWindow.

Inductive LoadingStage : Type := idle | searching | reading | thinking.

Global Instance LoadingStage_eq_dec : EqDecision LoadingStage.
Proof. solve_decision. Defined.

(** The state of the component ([useState]). *)
Record state : Type := {
  messages : list Message.t;
  input : jsstring;
  loadingStage : LoadingStage;
  selectedFolderId : option jsstring
}.

(** The locals of one call of [handleSend] that are alive while it waits
    for [sendChatMessage]. *)
Record turn : Type := {
  stageTimer1 : nat;
  stageTimer2 : nat;
  request : Api.ChatRequest
}.

(** The component and what surrounds it: the timers [setTimeout] has
    scheduled and not yet run or cleared (each callback of the component
    sets one stage), the next timer handle, the calls of [handleSend] that
    are waiting, the requests handed to [fetch] so far, and the browser. *)
Record world : Type := {
  ui : state;
  timers : gmap nat LoadingStage;
  next_timer : nat;
  awaiting : list turn;
  sent : list Api.ChatRequest;
  page : Browser.t
}.

Definition init (b : Browser.t) : world :=
  {| ui := {| messages := []; input := []; loadingStage := idle;
              selectedFolderId := None |};
     timers := ∅; next_timer := 1%nat; awaiting := []; sent := [];
     page := b |}.

(** [selectedFolderId || undefined]. *)
Definition folder_or_undefined (o : option jsstring) : option jsstring :=
  match o with
  | Some s => if truthy s then Some s else None
  | None => None
  end.

(** [messages.slice(-10).map((m) => ({ role: m.role, content: m.content }))]. *)
Definition window_history (msgs : list Message.t) : list Api.HistoryEntry :=
  (fun m => {| Api.role := Message.role m; Api.content := Message.content m |})
    <$> slice_last 10 msgs.

(** [handleSend] up to its [await].  [new_id] is what [generateId()]
    returns and [now] what [new Date()] reads. *)
Definition handleSend (user_token : jsstring) (new_id : jsstring) (now : Z)
    (w : world) : world :=
  let text := trim (input (ui w)) in
  if negb (truthy text) || negb (bool_decide (loadingStage (ui w) = idle))
  then w
  else
    let userMsg :=
      {| Message.id := new_id; Message.role := user; Message.content := text;
         Message.timestamp := now; Message.steps := None;
         Message.isError := None; Message.tokens := None |} in
    let stageTimer1 := next_timer w in
    let stageTimer2 := S (next_timer w) in
    let request :=
      {| Api.message := text;
         Api.history := window_history (messages (ui w));
         Api.token := user_token;
         Api.folder_id := folder_or_undefined (selectedFolderId (ui w)) |} in
    {| ui := {| messages := messages (ui w) ++ [userMsg];
                input := [];
                loadingStage := searching;
                selectedFolderId := selectedFolderId (ui w) |};
       timers := <[stageTimer2 := thinking]> (<[stageTimer1 := reading]> (timers w));
       next_timer := S (S (next_timer w));
       awaiting := awaiting w ++
                   [{| stageTimer1 := stageTimer1; stageTimer2 := stageTimer2;
                       request := request |}];
       sent := sent w ++ [request];
       page := page w |}.

(** The assistant message of the [try] branch. *)
Definition assistantMsg (new_id : jsstring) (now : Z) (response : ChatResponse.t)
  : Message.t :=
  {| Message.id := new_id;
     Message.role := assistant;
     Message.content :=
       if truthy_opt (ChatResponse.error response)
       then [0x274C; 0x20] ++ default [] (ChatResponse.error response)
       else or_else (Some (ChatResponse.answer response))
                    (lit "No response generated.");
     Message.timestamp := now;
     Message.steps := Some (ChatResponse.intermediate_steps response);
     Message.tokens := Some (ChatResponse.tokens response);
     Message.isError := Some (truthy_opt (ChatResponse.error response)) |}.

(** The assistant message of the [catch] branch. *)
Definition errorMsg (new_id : jsstring) (now : Z) (err : exn) : Message.t :=
  {| Message.id := new_id;
     Message.role := assistant;
     Message.content :=
       lit "Failed to reach the backend: " ++ message_or (lit "Unknown error") err;
     Message.timestamp := now;
     Message.steps := None;
     Message.tokens := None;
     Message.isError := Some true |}.

(** [handleSend] after its [await], for the call whose locals are [k]:
    both branches clear the two timers, set the stage to idle and append
    one message. *)
Definition handleSend_resume (k : turn) (outcome : Api.settled ChatResponse.t)
    (new_id : jsstring) (now : Z) (w : world) : world :=
  let '(result, page') := Api.sendChatMessage outcome (page w) in
  let msg :=
    match result with
    | Return response => assistantMsg new_id now response
    | Throw err => errorMsg new_id now err
    end in
  {| ui := {| messages := messages (ui w) ++ [msg];
              input := input (ui w);
              loadingStage := idle;
              selectedFolderId := selectedFolderId (ui w) |};
     timers := delete (stageTimer2 k) (delete (stageTimer1 k) (timers w));
     next_timer := next_timer w;
     awaiting := awaiting w;
     sent := sent w;
     page := page' |}.

Definition set_ui (u : state) (w : world) : world :=
  {| ui := u; timers := timers w; next_timer := next_timer w;
     awaiting := awaiting w; sent := sent w; page := page w |}.

(** [handleClear]. *)
Definition handleClear (w : world) : world :=
  set_ui {| messages := []; input := [];
            loadingStage := loadingStage (ui w);
            selectedFolderId := selectedFolderId (ui w) |} w.

(** The browser runs the callback of timer [tid], if it is still
    scheduled; a timer runs once. *)
Definition fire (tid : nat) (w : world) : world :=
  match timers w !! tid with
  | None => w
  | Some stage =>
      {| ui := {| messages := messages (ui w); input := input (ui w);
                  loadingStage := stage;
                  selectedFolderId := selectedFolderId (ui w) |};
         timers := delete tid (timers w);
         next_timer := next_timer w;
         awaiting := awaiting w;
         sent := sent w;
         page := page w |}
  end.

(** What can happen to a mounted component: typing in the input, a call
    of [handleSend] (the send button, or Enter), the browser running a
    timer, the [sendChatMessage] call of the [i]-th waiting [handleSend]
    settling, [handleClear], a choice in the folder selector, and
    [scrollToBottom] scheduling its own timer, which uses up a handle and
    whose callback does not touch the state. *)
Inductive event : Type :=
| Type_ (text : jsstring)
| Send (new_id : jsstring) (now : Z)
| Timeout (tid : nat)
| Settle (i : nat) (outcome : Api.settled ChatResponse.t)
         (new_id : jsstring) (now : Z)
| Clear
| SelectFolder (folderId : option jsstring)
| ScrollTimer.

Definition step (user_token : jsstring) (e : event) (w : world) : world :=
  match e with
  | Type_ text =>
      set_ui {| messages := messages (ui w); input := text;
                loadingStage := loadingStage (ui w);
                selectedFolderId := selectedFolderId (ui w) |} w
  | Send new_id now => handleSend user_token new_id now w
  | Timeout tid => fire tid w
  | Settle i outcome new_id now =>
      match awaiting w !! i with
      | None => w
      | Some k =>
          handleSend_resume k outcome new_id now
            {| ui := ui w; timers := timers w; next_timer := next_timer w;
               awaiting := delete i (awaiting w); sent := sent w;
               page := page w |}
      end
  | Clear => handleClear w
  | SelectFolder folderId =>
      set_ui {| messages := messages (ui w); input := input (ui w);
                loadingStage := loadingStage (ui w);
                selectedFolderId := folderId |} w
  | ScrollTimer =>
      {| ui := ui w; timers := timers w; next_timer := S (next_timer w);
         awaiting := awaiting w; sent := sent w; page := page w |}
  end.

Fixpoint run (user_token : jsstring) (es : list event) (w : world) : world :=
  match es with
  | [] => w
  | e :: r => run user_token r (step user_token e w)
  end.

End ChatWindow.

(** ** [app/page.tsx] *)

Module Home.

(** The state of the component.  [user] holds whatever was stored in it:
    the object built from the callback, or the value [JSON.parse]
    returned; [JNull] is [null]. *)
Record state : Type := {
  user : JSON.json;
  loading : bool
}.

Definition mount : state := {| user := JSON.JNull; loading := true |}.

(** The object literal [newUser]. *)
Definition newUser (token : jsstring) (name : option jsstring)
    (email : jsstring) (picture : option jsstring) : JSON.json :=
  JSON.JObj
    [(lit "token", JSON.JStr token);
     (lit "name", JSON.JStr (or_else name (lit "User")));
     (lit "email", JSON.JStr email);
     (lit "picture", JSON.JStr (or_else picture []))].

(** The branch taken when [token && email] holds. *)
Definition ingest (token : jsstring) (name : option jsstring)
    (email : jsstring) (picture : option jsstring)
    (b : Browser.t) (h : state) : Browser.t * state :=
  let u := newUser token name email picture in
  (Browser.replaceState_root
     (Browser.setItem (lit "user") (JSON.stringify u) b),
   {| user := u; loading := loading h |}).

(** The [else] branch. *)
Definition restore (b : Browser.t) (h : state) : Browser.t * state :=
  match Browser.getItem (lit "user") b with
  | None => (b, h)
  | Some stored =>
      if truthy stored then
        match JSON.parse stored with
        | Return v => (b, {| user := v; loading := loading h |})
        | Throw _ => (Browser.removeItem (lit "user") b, h)
        end
      else (b, h)
  end.

(** The effect run once after the component is mounted. *)
Definition effect (b : Browser.t) (h : state) : Browser.t * state :=
  let params := Browser.search b in
  let token := Browser.params_get (lit "token") params in
  let name := Browser.params_get (lit "name") params in
  let email := Browser.params_get (lit "email") params in
  let picture := Browser.params_get (lit "picture") params in
  let '(b', h') :=
    if truthy_opt token && truthy_opt email
    then ingest (default [] token) name (default [] email) picture b h
    else restore b h in
  (b', {| user := user h'; loading := false |}).

(** Loading the page: a fresh component, then its effect. *)
Definition load (b : Browser.t) : Browser.t * state := effect b mount.

Definition handleLogout (b : Browser.t) (h : state) : Browser.t * state :=
  (Browser.removeItem (lit "user") b,
   {| user := JSON.JNull; loading := loading h |}).

End Home.

(** ** [components/FolderSelector.tsx] *)

Module FolderSelector.

Record state : Type := {
  folders : list Folder.t;
  isOpen : bool;
  search : jsstring;
  loading : bool
}.

(** The component, the number of [fetchFolders] promises that have not
    settled, and the token of every [fetchFolders] call made so far. *)
Record world : Type := {
  ui : state;
  pending : nat;
  calls : list jsstring
}.

Definition init : world :=
  {| ui := {| folders := []; isOpen := false; search := []; loading := false |};
     pending := 0%nat; calls := [] |}.

(** The part of the dependency array [[isOpen, token, folders.length]]
    that can change while the component is mounted with one token. *)
Definition deps (s : state) : bool * nat := (isOpen s, length (folders s)).

(** The body of the effect. *)
Definition effect (token : jsstring) (w : world) : world :=
  if isOpen (ui w) && bool_decide (length (folders (ui w)) = 0%nat) then
    {| ui := {| folders := folders (ui w); isOpen := isOpen (ui w);
                search := search (ui w); loading := true |};
       pending := S (pending w);
       calls := calls w ++ [token] |}
  else w.

(** After a render the effect runs when a dependency differs from the
    render before. *)
Definition commit (token : jsstring) (before : state) (w : world) : world :=
  if decide (deps (ui w) = deps before) then w else effect token w.

Inductive event : Type :=
| Toggle
| Close
| Search (text : jsstring)
| Settled (outcome : Api.settled Api.FoldersBody).

Definition set_ui (u : state) (w : world) : world :=
  {| ui := u; pending := pending w; calls := calls w |}.

(** The handlers.  [Toggle] is the button ([setIsOpen(!isOpen)]); [Close]
    is the backdrop or a choice in the list ([setIsOpen(false)]);
    [Settled] runs [.then(setFolders)] on a fulfilled promise and
    [.finally(() => setLoading(false))] on either outcome. *)
Definition handle (e : event) (w : world) : world :=
  match e with
  | Toggle =>
      set_ui {| folders := folders (ui w); isOpen := negb (isOpen (ui w));
                search := search (ui w); loading := loading (ui w) |} w
  | Close =>
      set_ui {| folders := folders (ui w); isOpen := false;
                search := search (ui w); loading := loading (ui w) |} w
  | Search text =>
      set_ui {| folders := folders (ui w); isOpen := isOpen (ui w);
                search := text; loading := loading (ui w) |} w
  | Settled outcome =>
      match pending w with
      | O => w
      | S n =>
          {| ui := {| folders :=
                        match Api.fetchFolders outcome with
                        | Return fs => fs
                        | Throw _ => folders (ui w)
                        end;
                      isOpen := isOpen (ui w);
                      search := search (ui w);
                      loading := false |};
             pending := n;
             calls := calls w |}
      end
  end.

Definition step (token : jsstring) (e : event) (w : world) : world :=
  commit token (ui w) (handle e w).

Fixpoint run (token : jsstring) (es : list event) (w : world) : world :=
  match es with
  | [] => w
  | e :: r => run token r (step token e w)
  end.

End FolderSelector.

(** ** Invariants of a mounted [ChatWindow] *)

Module ChatWindowInv.
Import ChatWindow.

(** Every scheduled timer is one of the two of the waiting call [k]. *)
Definition owns (k : turn) (w : world) : Prop :=
  ∀ tid, is_Some (timers w !! tid) →
         tid = stageTimer1 k ∨ tid = stageTimer2 k.

(** While the stage is idle nothing waits and no timer is scheduled;
    otherwise exactly one call of [handleSend] waits, the scheduled timers
    are among its two, and their handles are below the next handle.  No
    timer sets the stage to idle. *)
Record inv (w : world) : Prop := {
  inv_idle :
    loadingStage (ui w) = idle → awaiting w = [] ∧ timers w = ∅;
  inv_busy :
    loadingStage (ui w) ≠ idle →
    ∃ k, awaiting w = [k] ∧ owns k w
         ∧ (stageTimer1 k < next_timer w)%nat
         ∧ (stageTimer2 k < next_timer w)%nat;
  inv_stage :
    ∀ tid stage, timers w !! tid = Some stage → stage ≠ idle
}.

(** Timer [tid] was handed out before and is no longer scheduled. *)
Definition spent (tid : nat) (w : world) : Prop :=
  timers w !! tid = None ∧ (tid < next_timer w)%nat.

End ChatWindowInv.


(** ** What [ChatWindow] renders and how it signs out *)

Module ChatView.
Import ChatWindow.

(** [isLoading]. *)
Definition isLoading (s : state) : bool :=
  negb (bool_decide (loadingStage s = idle)).

(** [disabled] of the send button: [isLoading || !input.trim()]. *)
Definition send_disabled (s : state) : bool :=
  isLoading s || negb (truthy (trim (input s))).

(** The loading indicator is the last element of the message list; the
    welcome panel stands in for the list while there is no message. *)
Definition indicator_rendered (s : state) : bool :=
  negb (bool_decide (length (messages s) = 0%nat)) && isLoading s.

(** [handleLogout] of [ChatWindow] with [handleLogout] of [Home] as its
    [onLogout]: [await logoutUser(user.token); onLogout()]. *)
Definition handleLogout (outcome : Api.settled unit) (b : Browser.t)
    (h : Home.state) : Browser.t * Home.state :=
  Home.handleLogout (Api.logoutUser outcome b) h.

(** The browser once a navigation to the root path has completed: the
    address carries no query. *)
Definition arrived_at_root (b : Browser.t) : Browser.t :=
  {| Browser.localStorage := Browser.localStorage b;
     Browser.search := [];
     Browser.navigating := false |}.

End ChatView.

(** ** [components/ChatMessage.tsx] *)

Module ChatMessage.

Global Instance Role_eq_dec : EqDecision Role.
Proof. solve_decision. Defined.

Inductive bubble : Type := ErrorText | PlainText | Markdown.

Definition isUser (m : Message.t) : bool :=
  bool_decide (Message.role m = user).

(** The three-way choice of the bubble's content: [message.isError],
    then [isUser], then the markdown renderer. *)
Definition body (m : Message.t) : bubble :=
  if default false (Message.isError m) then ErrorText
  else if isUser m then PlainText
  else Markdown.

(** [!isUser && message.steps && message.steps.length > 0]. *)
Definition showsThinkingPanel (m : Message.t) : bool :=
  negb (isUser m) &&
  match Message.steps m with
  | Some (_ :: _) => true
  | _ => false
  end.

(** [!isUser && message.tokens !== undefined && message.tokens > 0]. *)
Definition showsTokens (m : Message.t) : bool :=
  negb (isUser m) &&
  match Message.tokens m with
  | Some n => (0 <? n)%Z
  | None => false
  end.

End ChatMessage.

(** ** [components/ThinkingPanel.tsx] *)

Module ThinkingPanel.

(** [str.length > max ? str.slice(0, max) + "…" : str]; the ellipsis is
    the one code unit U+2026. *)
Definition truncate (str : jsstring) (max : nat) : jsstring :=
  if (max <? length str)%nat then take max str ++ [0x2026] else str.

End ThinkingPanel.

(** ** [components/FolderSelector.tsx]: the list and the label *)

Module FolderList.

Fixpoint starts_with (p s : jsstring) : bool :=
  match p, s with
  | [], _ => true
  | a :: p', b :: s' => (a =? b) && starts_with p' s'
  | _ :: _, [] => false
  end.

(** [String.prototype.includes]: [sub] occurs in [s] at some position. *)
Fixpoint includes (s sub : jsstring) : bool :=
  starts_with sub s ||
  match s with
  | [] => false
  | _ :: r => includes r sub
  end.

Section case_folding.

(** [String.prototype.toLowerCase], the case mapping of the platform. *)
Variable toLowerCase : jsstring → jsstring.

(** [folders.filter(f =>
      f.name.toLowerCase().includes(search.toLowerCase()))]. *)
Definition filteredFolders (folders : list Folder.t) (search : jsstring)
  : list Folder.t :=
  List.filter
    (fun f => includes (toLowerCase (Folder.name f)) (toLowerCase search))
    folders.

End case_folding.

(** [toLowerCase] on a text of ASCII characters: the letters A to Z are
    mapped to a to z. *)
Definition ascii_toLowerCase (s : jsstring) : jsstring :=
  (fun c => if (65 <=? c) && (c <=? 90) then c + 32 else c) <$> s.

(** [folders.find(f => f.id === selectedId)]. *)
Definition selectedFolder (folders : list Folder.t)
    (selectedId : option jsstring) : option Folder.t :=
  List.find (fun f => bool_decide (Some (Folder.id f) = selectedId)) folders.

(** The text of the button:
    [selectedId ? (selectedFolder?.name || "Selected Folder") : "Whole Drive"]. *)
Definition label (folders : list Folder.t) (selectedId : option jsstring)
  : jsstring :=
  if truthy_opt selectedId then
    or_else (Folder.name <$> selectedFolder folders selectedId)
            (lit "Selected Folder")
  else lit "Whole Drive".

End FolderList.

(** ** More invariants of a mounted [ChatWindow] *)

Module ChatWindowHistory.
Import ChatWindow.

Definition other (r : Role) : Role :=
  match r with
  | user => assistant
  | assistant => user
  end.

(** The roles of the messages alternate, beginning with [next]. *)
Fixpoint alternates (next : Role) (l : list Message.t) : bool :=
  match l with
  | [] => true
  | m :: r => bool_decide (Message.role m = next) && alternates (other next) r
  end.

(** What [handleSend] makes of its messages: a user message carries its
    text only; an assistant message says whether it is an error. *)
Definition well_formed (m : Message.t) : Prop :=
  match Message.role m with
  | user =>
      Message.isError m = None ∧ Message.steps m = None
      ∧ Message.tokens m = None
  | assistant => is_Some (Message.isError m)
  end.

(** The roles alternate from a user message on, and the number of messages
    is even exactly at the idle stage. *)
Definition paced (w : world) : Prop :=
  alternates user (messages (ui w)) = true
  ∧ Nat.even (length (messages (ui w)))
    = bool_decide (loadingStage (ui w) = idle).

(** Every scheduled timer is one that sets the stage to reading or to
    thinking. *)
Definition staged (w : world) : Prop :=
  ∀ tid stage, timers w !! tid = Some stage →
               stage = reading ∨ stage = thinking.

End ChatWindowHistory.

(** * Properties *)

(** ** Strings *)

Section strings.
Implicit Types s r : jsstring.

Lemma trimStart_nil_iff s :
  trimStart s = [] ↔ forallb is_white_space s = true.
Proof.
  induction s as [|c s IH]; simpl; [done|].
  destruct (is_white_space c); simpl; [exact IH|]. split; discriminate.
Qed.

Lemma trimStart_head s c r :
  trimStart s = c :: r → is_white_space c = false.
Proof.
  induction s as [|d s IH]; simpl; [discriminate|].
  destruct (is_white_space d) eqn:Hd; [exact IH|].
  intros [= -> _]. exact Hd.
Qed.

Lemma forallb_rev_true (f : N → bool) s :
  forallb f (rev s) = true ↔ forallb f s = true.
Proof.
  rewrite !forallb_forall. split; intros H x Hx; apply H.
  - by apply in_rev in Hx.
  - by apply in_rev.
Qed.

(** [trim] leaves nothing exactly of the strings made of white space only
    (the empty string among them). *)
Lemma trim_nil_iff s :
  trim s = [] ↔ forallb is_white_space s = true.
Proof.
  unfold trim, trimEnd. split.
  - intros H. apply (f_equal (@rev N)) in H. rewrite rev_involutive in H.
    cbn [rev] in H. apply trimStart_nil_iff in H.
    rewrite forallb_rev_true in H.
    destruct (trimStart s) as [|c r] eqn:Hs.
    + by apply trimStart_nil_iff.
    + apply trimStart_head in Hs. cbn [forallb] in H. rewrite Hs in H.
      discriminate.
  - intros H. apply trimStart_nil_iff in H. by rewrite H.
Qed.

Lemma truthy_false_iff s : truthy s = false ↔ s = [].
Proof. destruct s; simpl; split; congruence. Qed.

Lemma truthy_true_iff s : truthy s = true ↔ s ≠ [].
Proof. destruct s; simpl; split; congruence. Qed.

Lemma slice_last_length {A} (k : nat) (l : list A) :
  length (slice_last k l) = (length l `min` k)%nat.
Proof. unfold slice_last. rewrite length_drop. lia. Qed.

Lemma slice_last_suffix {A} (k : nat) (l : list A) :
  take (length l - k)%nat l ++ slice_last k l = l.
Proof. apply take_drop. Qed.

End strings.

(** ** The fuel of the JSON parser *)

Section json_fuel.
Import JSON.
Implicit Types s r rest acc : jsstring.

Lemma skip_ws_length s : (length (skip_ws s) ≤ length s)%nat.
Proof.
  induction s as [|c s IH]; simpl; [lia|].
  destruct (is_json_ws c); simpl; lia.
Qed.

Lemma skip_ws_cons_length s (c : N) r :
  skip_ws s = c :: r → (S (length r) ≤ length s)%nat.
Proof.
  intros H. pose proof (skip_ws_length s) as Hl. rewrite H in Hl.
  exact Hl.
Qed.

Lemma parse_chars_shorter s acc (x : jsstring) r :
  parse_chars s acc = Some (x, r) → (length r < length s)%nat.
Proof.
  remember (length s) as n eqn:Hn. revert s Hn acc.
  induction n as [n IH] using lt_wf_ind. intros s -> acc.
  destruct s as [|c s1]; [discriminate|]. cbn [parse_chars].
  destruct (c =? 0x22).
  { intros [= _ ->]. simpl. lia. }
  destruct (c =? 0x5C).
  - destruct s1 as [|e s2]; [discriminate|].
    destruct (e =? 0x75).
    + destruct s2 as [|h1 [|h2 [|h3 [|h4 s6]]]]; try discriminate.
      destruct (hex_value h1), (hex_value h2), (hex_value h3), (hex_value h4);
        try discriminate.
      intros H. eapply IH in H; [|  |reflexivity]; simpl in *; lia.
    + destruct (unescape e); [|discriminate].
      intros H. eapply IH in H; [|  |reflexivity]; simpl in *; lia.
  - destruct (c <? 0x20); [discriminate|].
    intros H. eapply IH in H; [|  |reflexivity]; simpl in *; lia.
Qed.

Lemma span_digits_length s :
  (length (span_digits s).2 ≤ length s)%nat.
Proof.
  induction s as [|c s IH]; simpl; [lia|].
  destruct (is_digit c); [|simpl; lia].
  destruct (span_digits s) as [d r']. simpl in *. lia.
Qed.

Lemma parse_int_part_shorter s (i : jsstring) r :
  parse_int_part s = Some (i, r) → (length r < length s)%nat.
Proof.
  destruct s as [|c s1]; [discriminate|]. cbn [parse_int_part].
  destruct (c =? 48); [intros [= _ ->]; simpl; lia|].
  destruct (is_digit c); [|discriminate].
  pose proof (span_digits_length s1) as Hl.
  destruct (span_digits s1) as [d r']. intros [= _ ->]. simpl in *. lia.
Qed.

Lemma parse_frac_part_length s (f : jsstring) r :
  parse_frac_part s = Some (f, r) → (length r ≤ length s)%nat.
Proof.
  destruct s as [|c s1]; [intros [= _ <-]; done|]. cbn [parse_frac_part].
  destruct (c =? 0x2E); [|intros [= _ <-]; done].
  pose proof (span_digits_length s1) as Hl.
  destruct (span_digits s1) as [[|d0 d] r']; [discriminate|].
  intros [= _ ->]. simpl in *. lia.
Qed.

Lemma parse_exp_part_length s (e : jsstring) r :
  parse_exp_part s = Some (e, r) → (length r ≤ length s)%nat.
Proof.
  destruct s as [|c s1]; [intros [= _ <-]; done|]. cbn [parse_exp_part].
  destruct ((c =? 0x65) || (c =? 0x45)); [|intros [= _ <-]; done].
  assert (∃ sign r0, (length r0 ≤ length s1)%nat ∧
            match s1 with
            | g :: r' => if (g =? 0x2B) || (g =? 0x2D) then ([g], r') else ([], s1)
            | [] => ([], s1)
            end = (sign, r0)) as (sign & r0 & Hr0 & ->).
  { destruct s1 as [|g r']; [by eexists _, _|].
    destruct ((g =? 0x2B) || (g =? 0x2D)); eexists _, _;
      (split; [|reflexivity]); simpl; lia. }
  pose proof (span_digits_length r0) as Hl.
  destruct (span_digits r0) as [[|d0 d] r']; [discriminate|].
  intros [= _ ->]. simpl in *. lia.
Qed.

Lemma parse_number_shorter s (lexeme : jsstring) r :
  parse_number s = Some (lexeme, r) → (length r < length s)%nat.
Proof.
  unfold parse_number.
  assert (∃ sign s0, (length s0 ≤ length s)%nat ∧
            match s with
            | c :: r => if c =? 0x2D then ([c], r) else ([], s)
            | [] => ([], s)
            end = (sign, s0)) as (sign & s0 & Hs0 & ->).
  { destruct s as [|c r']; [by eexists _, _|].
    destruct (c =? 0x2D); eexists _, _; (split; [|reflexivity]); simpl; lia. }
  destruct (parse_int_part s0) as [[i s1]|] eqn:Hi; [|discriminate].
  destruct (parse_frac_part s1) as [[f s2]|] eqn:Hf; [|discriminate].
  destruct (parse_exp_part s2) as [[e s3]|] eqn:He; [|discriminate].
  intros [= _ <-].
  apply parse_int_part_shorter in Hi. apply parse_frac_part_length in Hf.
  apply parse_exp_part_length in He. lia.
Qed.

Lemma strip_prefix_length (p s r : jsstring) :
  strip_prefix p s = Some r → (length r + length p = length s)%nat.
Proof.
  revert s. induction p as [|a p IH]; intros [|b s]; simpl;
    try discriminate; try (intros [= <-]; simpl; lia).
  destruct (a =? b); [|discriminate]. intros H. apply IH in H. lia.
Qed.

(** A parsed value takes at least one code unit. *)
Lemma parse_shorter (fuel : nat) :
  (∀ s (v : json) r,
     parse_value fuel s = Some (v, r) → (length r < length s)%nat)
  ∧ (∀ s (acc : list json) (v : json) r,
       parse_elements fuel s acc = Some (v, r) → (length r < length s)%nat)
  ∧ (∀ s (acc : list (jsstring * json)) (v : json) r,
       parse_members fuel s acc = Some (v, r) → (length r < length s)%nat).
Proof.
  induction fuel as [|f (IHv & IHe & IHm)].
  { split; [|split]; intros; discriminate. }
  split; [|split].
  - intros s v r. cbn [parse_value].
    destruct (skip_ws s) as [|c s1] eqn:Hs; [discriminate|].
    apply skip_ws_cons_length in Hs.
    destruct (c =? 0x22).
    { destruct (parse_chars s1 []) as [[str r']|] eqn:Hc; [|discriminate].
      intros [= _ <-]. apply parse_chars_shorter in Hc. lia. }
    destruct (c =? 0x5B).
    { destruct (skip_ws s1) as [|d r'] eqn:Hs1; [discriminate|].
      apply skip_ws_cons_length in Hs1.
      destruct (d =? 0x5D); [intros [= _ <-]; lia|].
      intros H. apply IHe in H. lia. }
    destruct (c =? 0x7B).
    { destruct (skip_ws s1) as [|d r'] eqn:Hs1; [discriminate|].
      apply skip_ws_cons_length in Hs1.
      destruct (d =? 0x7D); [intros [= _ <-]; lia|].
      intros H. apply IHm in H. lia. }
    destruct (strip_prefix (lit "null") (c :: s1)) eqn:Hnull.
    { intros [= _ <-]. apply strip_prefix_length in Hnull.
      simpl in Hnull. lia. }
    destruct (strip_prefix (lit "true") (c :: s1)) eqn:Htrue.
    { intros [= _ <-]. apply strip_prefix_length in Htrue.
      simpl in Htrue. lia. }
    destruct (strip_prefix (lit "false") (c :: s1)) eqn:Hfalse.
    { intros [= _ <-]. apply strip_prefix_length in Hfalse.
      simpl in Hfalse. lia. }
    destruct (parse_number (c :: s1)) as [[lexeme r']|] eqn:Hnum;
      [|discriminate].
    intros [= _ <-]. apply parse_number_shorter in Hnum.
    simpl in Hnum. lia.
  - intros s acc v r. cbn [parse_elements].
    destruct (parse_value f s) as [[v1 r1]|] eqn:Hv; [|discriminate].
    apply IHv in Hv.
    destruct (skip_ws r1) as [|d r'] eqn:Hs; [discriminate|].
    apply skip_ws_cons_length in Hs.
    destruct (d =? 0x2C); [intros H; apply IHe in H; lia|].
    destruct (d =? 0x5D); [|discriminate]. intros [= _ <-]. lia.
  - intros s acc v r. cbn [parse_members].
    destruct (skip_ws s) as [|q s1] eqn:Hs; [discriminate|].
    apply skip_ws_cons_length in Hs.
    destruct (q =? 0x22); [|discriminate].
    destruct (parse_chars s1 []) as [[k r1]|] eqn:Hk; [|discriminate].
    apply parse_chars_shorter in Hk.
    destruct (skip_ws r1) as [|colon r2] eqn:Hs1; [discriminate|].
    apply skip_ws_cons_length in Hs1.
    destruct (colon =? 0x3A); [|discriminate].
    destruct (parse_value f r2) as [[v1 r3]|] eqn:Hv; [|discriminate].
    apply IHv in Hv.
    destruct (skip_ws r3) as [|d r4] eqn:Hs3; [discriminate|].
    apply skip_ws_cons_length in Hs3.
    destruct (d =? 0x2C); [intros H; apply IHm in H; lia|].
    destruct (d =? 0x7D); [|discriminate]. intros [= _ <-]. lia.
Qed.

(** With fuel above twice the length of the text, more fuel does not
    change the result: the parser does not stop for lack of fuel. *)
Lemma parse_fuel_stable (fuel : nat) :
  (∀ s (fuel' : nat),
     (2 * length s + 1 ≤ fuel)%nat → (fuel ≤ fuel')%nat →
     parse_value fuel s = parse_value fuel' s)
  ∧ (∀ s (acc : list json) (fuel' : nat),
       (2 * length s + 2 ≤ fuel)%nat → (fuel ≤ fuel')%nat →
       parse_elements fuel s acc = parse_elements fuel' s acc)
  ∧ (∀ s (acc : list (jsstring * json)) (fuel' : nat),
       (2 * length s + 2 ≤ fuel)%nat → (fuel ≤ fuel')%nat →
       parse_members fuel s acc = parse_members fuel' s acc).
Proof.
  induction fuel as [|f (IHv & IHe & IHm)].
  { split; [|split]; intros; lia. }
  destruct (parse_shorter f) as (Sv & Se & Sm).
  split; [|split].
  - intros s [|f'] Hf Hle; [lia|]. cbn [parse_value].
    destruct (skip_ws s) as [|c s1] eqn:Hs; [done|].
    apply skip_ws_cons_length in Hs.
    destruct (c =? 0x22); [done|].
    destruct (c =? 0x5B).
    { destruct (skip_ws s1) as [|d r'] eqn:Hs1; [done|].
      destruct (d =? 0x5D); [done|]. apply IHe; lia. }
    destruct (c =? 0x7B); [|done].
    destruct (skip_ws s1) as [|d r'] eqn:Hs1; [done|].
    destruct (d =? 0x7D); [done|]. apply IHm; lia.
  - intros s acc [|f'] Hf Hle; [lia|]. cbn [parse_elements].
    rewrite <- (IHv s f') by lia.
    destruct (parse_value f s) as [[v1 r1]|] eqn:Hv; [|done].
    apply Sv in Hv.
    destruct (skip_ws r1) as [|d r'] eqn:Hs; [done|].
    apply skip_ws_cons_length in Hs.
    destruct (d =? 0x2C); [|done]. apply IHe; lia.
  - intros s acc [|f'] Hf Hle; [lia|]. cbn [parse_members].
    destruct (skip_ws s) as [|q s1] eqn:Hs; [done|].
    apply skip_ws_cons_length in Hs.
    destruct (q =? 0x22); [|done].
    destruct (parse_chars s1 []) as [[k r1]|] eqn:Hk; [|done].
    apply parse_chars_shorter in Hk.
    destruct (skip_ws r1) as [|colon r2] eqn:Hs1; [done|].
    apply skip_ws_cons_length in Hs1.
    destruct (colon =? 0x3A); [|done].
    rewrite <- (IHv r2 f') by lia.
    destruct (parse_value f r2) as [[v1 r3]|] eqn:Hv; [|done].
    apply Sv in Hv.
    destruct (skip_ws r3) as [|d r4] eqn:Hs3; [done|].
    apply skip_ws_cons_length in Hs3.
    destruct (d =? 0x2C); [|done]. apply IHm; lia.
Qed.

(** The fuel [JSON.parse] gives its parser is enough. *)
Lemma parse_fuel_enough s (fuel : nat) :
  (2 * length s + 2 ≤ fuel)%nat →
  parse_value fuel s = parse_value (2 * length s + 2) s.
Proof.
  intros H. symmetry.
  apply (proj1 (parse_fuel_stable (2 * length s + 2))); lia.
Qed.

End json_fuel.

(** ** [JSON.parse] after [JSON.stringify] on strings *)

Section json_strings.
Import JSON.
Implicit Types s rest acc : jsstring.

Lemma hex_value_hex_digit (n : N) : n < 16 → hex_value (hex_digit n) = Some n.
Proof.
  intros H.
  assert (∃ m : nat, (m < 16)%nat ∧ n = N.of_nat m) as (m & Hm & ->)
    by (exists (N.to_nat n); lia).
  do 16 (destruct m as [|m]; [reflexivity|]). lia.
Qed.

Lemma parse_chars_unicode (h1 h2 h3 h4 : N) rest acc :
  parse_chars (0x5C :: 0x75 :: h1 :: h2 :: h3 :: h4 :: rest) acc
  = match hex_value h1, hex_value h2, hex_value h3, hex_value h4 with
    | Some a, Some b, Some c, Some d =>
        parse_chars rest (a * 4096 + b * 256 + c * 16 + d :: acc)
    | _, _, _, _ => None
    end.
Proof. reflexivity. Qed.

Lemma parse_chars_escape (e u : N) rest acc :
  e ≠ 0x75 → unescape e = Some u →
  parse_chars (0x5C :: e :: rest) acc = parse_chars rest (u :: acc).
Proof.
  intros He Hu. cbn [parse_chars].
  change (0x5C =? 0x22) with false. change (0x5C =? 0x5C) with true.
  cbv iota. apply N.eqb_neq in He. rewrite He, Hu. reflexivity.
Qed.

Lemma parse_chars_plain (c : N) rest acc :
  c ≠ 0x22 → c ≠ 0x5C → 0x20 ≤ c →
  parse_chars (c :: rest) acc = parse_chars rest (c :: acc).
Proof.
  intros H1 H2 H3. cbn [parse_chars].
  apply N.eqb_neq in H1, H2. rewrite H1, H2.
  apply N.ltb_ge in H3. by rewrite H3.
Qed.

Lemma hex_digits_value (c : N) :
  c < 65536 →
  c / 4096 mod 16 * 4096 + c / 256 mod 16 * 256 + c / 16 mod 16 * 16
  + c mod 16 = c.
Proof.
  intros H.
  replace (c / 4096) with (c / 16 / 16 / 16)
    by (rewrite !N.Div0.div_div; reflexivity).
  replace (c / 256) with (c / 16 / 16)
    by (rewrite !N.Div0.div_div; reflexivity).
  pose proof (N.div_mod c 16 ltac:(lia)) as E0.
  pose proof (N.mod_lt c 16 ltac:(lia)) as L0.
  pose proof (N.div_mod (c / 16) 16 ltac:(lia)) as E1.
  pose proof (N.mod_lt (c / 16) 16 ltac:(lia)) as L1.
  pose proof (N.div_mod (c / 16 / 16) 16 ltac:(lia)) as E2.
  pose proof (N.mod_lt (c / 16 / 16) 16 ltac:(lia)) as L2.
  generalize dependent (c mod 16). intros r0 E0 L0.
  generalize dependent (c / 16 mod 16). intros r1 E1 L1.
  generalize dependent (c / 16 / 16 mod 16). intros r2 E2 L2.
  generalize dependent (c / 16 / 16 / 16). intros z E2.
  generalize dependent (c / 16 / 16). intros y E1 E2.
  generalize dependent (c / 16). intros x E0 E1.
  rewrite (N.mod_small z 16) by lia.
  lia.
Qed.

Lemma parse_chars_unicode_escape (c : N) rest acc :
  c < 65536 →
  parse_chars (unicode_escape c ++ rest) acc = parse_chars rest (c :: acc).
Proof.
  intros Hc. unfold unicode_escape. cbn [app].
  rewrite parse_chars_unicode.
  rewrite !hex_value_hex_digit by (apply N.mod_lt; lia).
  by rewrite hex_digits_value.
Qed.

Lemma parse_chars_quote_unit (c : N) rest acc :
  is_high_surrogate c = false → is_low_surrogate c = false →
  parse_chars (quote_unit c ++ rest) acc = parse_chars rest (c :: acc).
Proof.
  intros _ _. unfold quote_unit.
  destruct (N.eqb_spec c 0x8) as [-> | ?]; [reflexivity|].
  destruct (N.eqb_spec c 0x9) as [-> | ?]; [reflexivity|].
  destruct (N.eqb_spec c 0xA) as [-> | ?]; [reflexivity|].
  destruct (N.eqb_spec c 0xC) as [-> | ?]; [reflexivity|].
  destruct (N.eqb_spec c 0xD) as [-> | ?]; [reflexivity|].
  destruct (N.eqb_spec c 0x22) as [-> | ?]; [reflexivity|].
  destruct (N.eqb_spec c 0x5C) as [-> | ?]; [reflexivity|].
  destruct (N.ltb_spec c 0x20).
  - apply parse_chars_unicode_escape. lia.
  - by apply parse_chars_plain.
Qed.

Lemma surrogate_plain (c : N) rest acc :
  is_high_surrogate c = true ∨ is_low_surrogate c = true →
  c < 65536
  ∧ parse_chars (c :: rest) acc = parse_chars rest (c :: acc).
Proof.
  unfold is_high_surrogate, is_low_surrogate.
  rewrite !andb_true_iff, !N.leb_le. intros H.
  split; [lia|]. apply parse_chars_plain; lia.
Qed.

(** Reading back what [quote_units] wrote, up to the closing quote. *)
Lemma parse_chars_quote_units s rest acc :
  parse_chars (quote_units s ++ 0x22 :: rest) acc = Some (rev acc ++ s, rest).
Proof.
  remember (length s) as n eqn:Hn.
  revert s Hn rest acc.
  induction n as [n IH] using lt_wf_ind. intros s Hn rest acc.
  destruct s as [|c r].
  { simpl. by rewrite app_nil_r. }
  assert (∀ acc', parse_chars (quote_units r ++ 0x22 :: rest) acc'
                  = Some (rev acc' ++ r, rest)) as IHr.
  { intros acc'. apply (IH (length r)); [simpl in Hn; lia | done]. }
  assert (rev (c :: acc) ++ r = rev acc ++ c :: r) as Hrev
    by (simpl; by rewrite <- app_assoc).
  cbn [quote_units].
  destruct (is_high_surrogate c) eqn:Hhigh.
  - destruct (surrogate_plain c (quote_units r ++ 0x22 :: rest) acc
                (or_introl Hhigh)) as [Hc Hplain].
    destruct r as [|d r'].
    + rewrite parse_chars_unicode_escape by done. reflexivity.
    + destruct (is_low_surrogate d) eqn:Hlow.
      * cbn [app].
        destruct (surrogate_plain c (d :: quote_units r' ++ 0x22 :: rest) acc
                    (or_introl Hhigh)) as [_ ->].
        destruct (surrogate_plain d (quote_units r' ++ 0x22 :: rest) (c :: acc)
                    (or_intror Hlow)) as [_ ->].
        rewrite (IH (length r')); [|simpl in Hn; lia|done].
        f_equal. f_equal. simpl. by rewrite <- !app_assoc.
      * rewrite <- app_assoc.
        rewrite parse_chars_unicode_escape by done.
        rewrite IHr, Hrev. done.
  - destruct (is_low_surrogate c) eqn:Hlow.
    + destruct (surrogate_plain c rest acc (or_intror Hlow)) as [Hc _].
      rewrite <- app_assoc.
      rewrite parse_chars_unicode_escape by done.
      rewrite IHr, Hrev. done.
    + rewrite <- app_assoc.
      rewrite parse_chars_quote_unit by done.
      rewrite IHr, Hrev. done.
Qed.

Lemma quote_cons s rest :
  quote s ++ rest = 0x22 :: quote_units s ++ 0x22 :: rest.
Proof. unfold quote. cbn [app]. by rewrite <- app_assoc. Qed.

Lemma parse_value_string (fuel : nat) s rest :
  parse_value (S fuel) (quote s ++ rest) = Some (JStr s, rest).
Proof.
  rewrite quote_cons. cbn [parse_value skip_ws].
  change (is_json_ws 0x22) with false. cbv iota.
  change (0x22 =? 0x22) with true. cbv iota.
  by rewrite parse_chars_quote_units.
Qed.

Lemma parse_value_object (fuel : nat) s rest :
  parse_value (S fuel) (0x7B :: quote s ++ rest)
  = parse_members fuel (quote s ++ rest) [].
Proof.
  rewrite quote_cons. reflexivity.
Qed.

(** One member with a string value, followed by a comma. *)
Lemma parse_members_string_more (fuel : nat) (k v : jsstring) rest
    (acc : list (jsstring * json)) :
  parse_members (S (S fuel)) (quote k ++ 0x3A :: quote v ++ 0x2C :: rest) acc
  = parse_members (S fuel) rest (set_prop k (JStr v) acc).
Proof.
  rewrite quote_cons.
  cbn [parse_members skip_ws].
  change (is_json_ws 0x22) with false. cbv iota.
  change (0x22 =? 0x22) with true. cbv iota.
  rewrite parse_chars_quote_units. cbn [rev app skip_ws].
  change (is_json_ws 0x3A) with false. cbv iota.
  change (0x3A =? 0x3A) with true. cbv iota.
  rewrite parse_value_string. reflexivity.
Qed.

(** The last member, with a string value, and the closing brace. *)
Lemma parse_members_string_last (fuel : nat) (k v : jsstring) rest
    (acc : list (jsstring * json)) :
  parse_members (S (S fuel)) (quote k ++ 0x3A :: quote v ++ 0x7D :: rest) acc
  = Some (JObj (set_prop k (JStr v) acc), rest).
Proof.
  rewrite quote_cons.
  cbn [parse_members skip_ws].
  change (is_json_ws 0x22) with false. cbv iota.
  change (0x22 =? 0x22) with true. cbv iota.
  rewrite parse_chars_quote_units. cbn [rev app skip_ws].
  change (is_json_ws 0x3A) with false. cbv iota.
  change (0x3A =? 0x3A) with true. cbv iota.
  rewrite parse_value_string. reflexivity.
Qed.

(** The text [JSON.stringify] writes for the object of [newUser] parses
    back to that object. *)
Lemma parse_stringify_newUser (token : jsstring) (name : option jsstring)
    (email : jsstring) (picture : option jsstring) :
  parse (stringify (Home.newUser token name email picture))
  = Return (Home.newUser token name email picture).
Proof.
  unfold Home.newUser.
  set (n := or_else name (lit "User")). set (p := or_else picture []).
  assert (stringify
            (JObj [(lit "token", JStr token); (lit "name", JStr n);
                   (lit "email", JStr email); (lit "picture", JStr p)])
          = 0x7B :: quote (lit "token") ++ 0x3A :: quote token ++ 0x2C ::
              quote (lit "name") ++ 0x3A :: quote n ++ 0x2C ::
              quote (lit "email") ++ 0x3A :: quote email ++ 0x2C ::
              quote (lit "picture") ++ 0x3A :: quote p ++ 0x7D :: []) as ->.
  { cbn [stringify app]. f_equal.
    repeat first [rewrite <- app_assoc | rewrite <- app_comm_cons].
    reflexivity. }
  unfold parse.
  assert (∀ m : nat, (2 ≤ m)%nat →
            ∃ f', (2 * m + 2)%nat = S (S (S (S (S (S f')))))) as Hfuel
    by (intros m Hm; exists (2 * m - 4)%nat; lia).
  match goal with
  | |- context [parse_value (2 * length ?s + 2) _] =>
      destruct (Hfuel (length s)) as [f' ->]
  end.
  { cbn [length]. rewrite length_app. unfold quote at 1. cbn [length app].
    lia. }
  rewrite parse_value_object.
  rewrite !parse_members_string_more, parse_members_string_last.
  reflexivity.
Qed.

End json_strings.

(** ** [lib/api.ts] *)

Section api.

Lemma digits_of_uint_inj (d d' : Decimal.uint) :
  digits_of_uint d = digits_of_uint d' → d = d'.
Proof.
  revert d'. induction d; intros [] H; simpl in H;
    try discriminate; try reflexivity;
    injection H as H; f_equal; by apply IHd.
Qed.

Lemma digits_of_uint_no_colon (d : Decimal.uint) : 58 ∉ digits_of_uint d.
Proof.
  induction d; simpl; rewrite ?not_elem_of_cons;
    [apply not_elem_of_nil | split; [discriminate | assumption] ..].
Qed.

Lemma string_of_N_inj (n n' : N) :
  string_of_N n = string_of_N n' → n = n'.
Proof.
  intros H. by apply DecimalN.Unsigned.to_uint_inj, digits_of_uint_inj.
Qed.

(** Two texts that agree and are cut at the first occurrence of [c] have
    equal parts. *)
Lemma app_cons_first_inj {A} (c : A) (l1 l2 r1 r2 : list A) :
  c ∉ l1 → c ∉ l2 → l1 ++ c :: r1 = l2 ++ c :: r2 → l1 = l2 ∧ r1 = r2.
Proof.
  revert l2. induction l1 as [|a l1 IH]; intros [|b l2] H1 H2 H; simpl in H.
  - by injection H as ->.
  - injection H as <- _. exfalso. apply H2. left.
  - injection H as -> _. exfalso. apply H1. left.
  - injection H as -> H. apply not_elem_of_cons in H1 as [_ H1].
    apply not_elem_of_cons in H2 as [_ H2].
    destruct (IH l2 H1 H2 H) as [-> ->]. done.
Qed.

(** The error of a failed call determines the status and the body it was
    built from. *)
Lemma ApiError_inj (status status' : N) (body body' : jsstring) :
  Api.ApiError status body = Api.ApiError status' body' →
  status = status' ∧ body = body'.
Proof.
  unfold Api.ApiError. intros [= H].
  change (string_of_N status ++ 58 :: 32 :: body
          = string_of_N status' ++ 58 :: 32 :: body') in H.
  apply app_cons_first_inj in H as [H1 H2];
    try apply digits_of_uint_no_colon.
  split; [by apply string_of_N_inj | congruence].
Qed.

Lemma not_ok_401 {A} (response : Api.Response A) :
  Api.status response = 401 → Api.ok response = false.
Proof. unfold Api.ok. intros ->. reflexivity. Qed.

Lemma sendChatMessage_cases
    (response : Api.Response ChatResponse.t) (b : Browser.t) :
  (Api.status response = 401 →
     Api.sendChatMessage (Api.Fulfilled response) b
       = (Throw Api.SessionExpired,
          Browser.set_href_root (Browser.removeItem (lit "user") b)))
  ∧ (Api.status response ≠ 401 → Api.ok response = false →
     Api.sendChatMessage (Api.Fulfilled response) b
       = (Throw (Api.ApiError (Api.status response) (Api.text response)), b))
  ∧ (Api.ok response = true → ∀ data,
     Api.json response = Return data →
     Api.sendChatMessage (Api.Fulfilled response) b = (Return data, b)).
Proof.
  split; [|split].
  - intros E. unfold Api.sendChatMessage. by rewrite E.
  - intros Hne Hok. unfold Api.sendChatMessage. apply N.eqb_neq in Hne.
    rewrite Hne, Hok. reflexivity.
  - intros Hok data Hdata. unfold Api.sendChatMessage.
    destruct (N.eqb_spec (Api.status response) 401) as [E|_].
    + apply not_ok_401 in E. congruence.
    + rewrite Hok, Hdata. reflexivity.
Qed.

(** C3.  [sendChatMessage] on a settled response.  Status 401: the stored
    session is removed from [localStorage], the page is sent to the entry
    point and the call throws the session-expired error.  Any other status
    outside 200..299: the call throws the API error built from that status
    and the raw body text (which it determines), and touches nothing.  A
    status in 200..299: the call returns the decoded body as it is. *)
Theorem sendChatMessage_outcomes
    (response : Api.Response ChatResponse.t) (b : Browser.t) :
  (Api.status response = 401 →
     Api.sendChatMessage (Api.Fulfilled response) b
       = (Throw Api.SessionExpired,
          Browser.set_href_root (Browser.removeItem (lit "user") b))
     ∧ Browser.getItem (lit "user")
         (Api.sendChatMessage (Api.Fulfilled response) b).2 = None)
  ∧ (Api.status response ≠ 401 → Api.ok response = false →
     Api.sendChatMessage (Api.Fulfilled response) b
       = (Throw (Api.ApiError (Api.status response) (Api.text response)), b)
     ∧ ∀ status' body',
         Api.ApiError (Api.status response) (Api.text response)
           = Api.ApiError status' body' →
         Api.status response = status' ∧ Api.text response = body')
  ∧ (Api.ok response = true → ∀ data,
     Api.json response = Return data →
     Api.sendChatMessage (Api.Fulfilled response) b = (Return data, b)).
Proof.
  destruct (sendChatMessage_cases response b) as (H401 & Herr & Hok).
  split; [|split].
  - intros E. rewrite (H401 E). split; [reflexivity|].
    apply lookup_delete_eq.
  - intros Hne Hnok. split; [by apply Herr|].
    intros status' body' H. by apply ApiError_inj.
  - exact Hok.
Qed.

(** The three branches on concrete responses. *)
Lemma sendChatMessage_outcomes_witness :
  let b := {| Browser.localStorage := {[ lit "user" := lit "{}" ]};
              Browser.search := []; Browser.navigating := false |} in
  let data := {| ChatResponse.answer := lit "Found 3 PDFs";
                 ChatResponse.intermediate_steps := [];
                 ChatResponse.tokens := 42%Z;
                 ChatResponse.error := None |} in
  let denied := {| Api.status := 401; Api.text := lit "unauthorized";
                   Api.json := Throw Thrown |} in
  let broken := {| Api.status := 500; Api.text := lit "boom";
                   Api.json := Throw Thrown |} in
  let fine := {| Api.status := 200; Api.text := lit "{...}";
                 Api.json := Return data |} in
  Browser.getItem (lit "user")
    (Api.sendChatMessage (Api.Fulfilled denied) b).2 = None
  ∧ Api.sendChatMessage (Api.Fulfilled broken) b
      = (Throw (Error (lit "API error 500: boom")), b)
  ∧ Api.sendChatMessage (Api.Fulfilled fine) b = (Return data, b).
Proof.
  intros b data denied broken fine. split; [|split].
  - apply (proj1 (sendChatMessage_outcomes denied b)). reflexivity.
  - apply (proj1 (proj2 (sendChatMessage_outcomes broken b)));
      [discriminate | reflexivity].
  - apply (proj2 (proj2 (sendChatMessage_outcomes fine b)));
      reflexivity.
Defined.

(** C6.  A rejected [fetch] makes [fetchFolders] throw to its caller: the
    function has no handler around the call, unlike [fetchUserInfo], which
    answers [null] on the same fault.  A response outside 200..299 does
    give the empty list. *)
Theorem fetchFolders_network_fault_throws :
  Api.fetchFolders (Api.Rejected (TypeError (lit "Failed to fetch")))
    = Throw (TypeError (lit "Failed to fetch"))
  ∧ Api.fetchUserInfo (lit "T1") (Api.Rejected (TypeError (lit "Failed to fetch")))
    = Return None
  ∧ Api.fetchFolders
      (Api.Fulfilled {| Api.status := 503; Api.text := lit "unavailable";
                        Api.json := Throw (SyntaxError (lit "Unexpected token")) |})
    = Return [].
Proof. repeat split. Qed.

Lemma fetchFolders_rejected (e : exn) :
  Api.fetchFolders (Api.Rejected e) = Throw e.
Proof. reflexivity. Qed.

Lemma fetchFolders_not_ok (response : Api.Response Api.FoldersBody) :
  Api.ok response = false → Api.fetchFolders (Api.Fulfilled response) = Return [].
Proof. unfold Api.fetchFolders. by intros ->. Qed.

End api.

(** ** [components/ChatWindow.tsx]: one turn *)

Section chat_turn.
Import ChatWindow.

Lemma handleSend_rejected (user_token new_id : jsstring) (now : Z) (w : world) :
  forallb is_white_space (input (ui w)) = true ∨ loadingStage (ui w) ≠ idle →
  handleSend user_token new_id now w = w.
Proof.
  intros H. unfold handleSend.
  destruct H as [H|H].
  - apply trim_nil_iff in H. rewrite H. reflexivity.
  - rewrite (bool_decide_eq_false_2 _ H). by rewrite orb_true_r.
Qed.

Lemma handleSend_accepted (user_token new_id : jsstring) (now : Z) (w : world) :
  trim (input (ui w)) ≠ [] → loadingStage (ui w) = idle →
  handleSend user_token new_id now w =
    let text := trim (input (ui w)) in
    let request :=
      {| Api.message := text;
         Api.history := window_history (messages (ui w));
         Api.token := user_token;
         Api.folder_id := folder_or_undefined (selectedFolderId (ui w)) |} in
    {| ui := {| messages := messages (ui w) ++
                  [{| Message.id := new_id; Message.role := user;
                      Message.content := text; Message.timestamp := now;
                      Message.steps := None; Message.isError := None;
                      Message.tokens := None |}];
                input := [];
                loadingStage := searching;
                selectedFolderId := selectedFolderId (ui w) |};
       timers := <[S (next_timer w) := thinking]>
                   (<[next_timer w := reading]> (timers w));
       next_timer := S (S (next_timer w));
       awaiting := awaiting w ++
                   [{| stageTimer1 := next_timer w;
                       stageTimer2 := S (next_timer w);
                       request := request |}];
       sent := sent w ++ [request];
       page := page w |}.
Proof.
  intros Htext Hidle. unfold handleSend.
  apply truthy_true_iff in Htext. rewrite Htext.
  rewrite (bool_decide_eq_true_2 _ Hidle). reflexivity.
Qed.

(** C4.  On a response with a status in 200..299 and a decoded body, the
    resumed [handleSend] appends one assistant message.  Its content is the
    error text behind the failure mark when the body's [error] is a
    non-empty string, else the answer when that is non-empty, else the
    placeholder; it carries the body's intermediate steps and token count;
    [isError] is true exactly when [error] is a non-empty string. *)
Theorem handleSend_success_message
    (k : turn) (response : Api.Response ChatResponse.t) (data : ChatResponse.t)
    (new_id : jsstring) (now : Z) (w : world) :
  Api.ok response = true →
  Api.json response = Return data →
  ∃ m : Message.t,
    messages (ui (handleSend_resume k (Api.Fulfilled response) new_id now w))
      = messages (ui w) ++ [m]
    ∧ Message.role m = assistant
    ∧ Message.steps m = Some (ChatResponse.intermediate_steps data)
    ∧ Message.tokens m = Some (ChatResponse.tokens data)
    ∧ (∀ e, ChatResponse.error data = Some e → e ≠ [] →
         Message.content m = [0x274C; 0x20] ++ e
         ∧ Message.isError m = Some true)
    ∧ (ChatResponse.error data = None ∨ ChatResponse.error data = Some [] →
         Message.isError m = Some false
         ∧ (ChatResponse.answer data ≠ [] →
              Message.content m = ChatResponse.answer data)
         ∧ (ChatResponse.answer data = [] →
              Message.content m = lit "No response generated.")).
Proof.
  intros Hok Hdata.
  pose proof (proj2 (proj2 (sendChatMessage_cases response (page w)))
                Hok data Hdata) as Hsend.
  exists (assistantMsg new_id now data).
  unfold handleSend_resume. rewrite Hsend. simpl.
  split; [reflexivity|]. split; [reflexivity|].
  split; [reflexivity|]. split; [reflexivity|]. split.
  - intros e -> He. apply truthy_true_iff in He. simpl. by rewrite He.
  - intros He.
    assert (truthy_opt (ChatResponse.error data) = false) as ->
      by (destruct He as [-> | ->]; reflexivity).
    split; [reflexivity|]. split.
    + intros Ha. apply truthy_true_iff in Ha. simpl. by rewrite Ha.
    + intros ->. reflexivity.
Qed.

End chat_turn.

(** ** [components/ChatWindow.tsx]: sequences of events *)

Section chat_invariant.
Import ChatWindow ChatWindowInv.
Variable user_token : jsstring.

Lemma inv_init (b : Browser.t) : inv (init b).
Proof.
  split; simpl.
  - done.
  - done.
  - intros tid stage H. by rewrite lookup_empty in H.
Qed.

Lemma inv_busy_of_awaiting (w : world) (i : nat) (k : turn) :
  inv w → awaiting w !! i = Some k →
  awaiting w = [k] ∧ i = 0%nat ∧ owns k w
  ∧ (stageTimer1 k < next_timer w)%nat ∧ (stageTimer2 k < next_timer w)%nat.
Proof.
  intros Hinv Hk.
  destruct (decide (loadingStage (ui w) = idle)) as [Hidle|Hbusy].
  - destruct (inv_idle w Hinv Hidle) as [Ha _]. rewrite Ha in Hk. done.
  - destruct (inv_busy w Hinv Hbusy) as (k0 & Ha & Hown & H1 & H2).
    rewrite Ha in Hk. destruct i as [|i]; simpl in Hk; [|done].
    injection Hk as <-. done.
Qed.

Lemma inv_handleSend (new_id : jsstring) (now : Z) (w : world) :
  inv w → inv (handleSend user_token new_id now w).
Proof.
  intros Hinv.
  destruct (decide (trim (input (ui w)) = [])) as [Hblank|Htext].
  { rewrite handleSend_rejected; [done|]. left. by apply trim_nil_iff. }
  destruct (decide (loadingStage (ui w) = idle)) as [Hidle|Hbusy].
  2: { rewrite handleSend_rejected; [done|]. by right. }
  rewrite (handleSend_accepted _ _ _ _ Htext Hidle).
  destruct (inv_idle w Hinv Hidle) as [Ha Ht].
  split; simpl.
  - done.
  - intros _. eexists. rewrite Ha, Ht. split; [reflexivity|].
    split; [|simpl; lia].
    intros tid. simpl. rewrite !lookup_insert_is_Some, lookup_empty.
    intros [<-|[_ [<-|[_ [? [=]]]]]]; auto.
  - intros tid stage. rewrite Ht.
    rewrite !lookup_insert_Some, lookup_empty.
    intros [[_ <-]|[_ [[_ <-]|[_ ?]]]]; done.
Qed.

Lemma inv_fire (tid : nat) (w : world) : inv w → inv (fire tid w).
Proof.
  intros Hinv. unfold fire.
  destruct (timers w !! tid) as [stage|] eqn:Htid; [|done].
  assert (stage ≠ idle) as Hstage by by eapply inv_stage.
  assert (loadingStage (ui w) ≠ idle) as Hbusy.
  { intros Hidle. destruct (inv_idle w Hinv Hidle) as [_ Ht].
    by rewrite Ht, lookup_empty in Htid. }
  destruct (inv_busy w Hinv Hbusy) as (k & Ha & Hown & H1 & H2).
  split; simpl.
  - done.
  - intros _. exists k. split; [done|]. split; [|done].
    intros x. simpl. rewrite lookup_delete_is_Some. intros [_ Hx]. by apply Hown.
  - intros x st. rewrite lookup_delete_Some. intros [_ Hx].
    by eapply inv_stage.
Qed.

Lemma owned_timers_cleared (k : turn) (w : world) :
  owns k w → delete (stageTimer2 k) (delete (stageTimer1 k) (timers w)) = ∅.
Proof.
  intros Hown. apply map_empty. intros tid.
  destruct (decide (tid = stageTimer2 k)) as [->|H2];
    [apply lookup_delete_eq|].
  rewrite lookup_delete_ne by done.
  destruct (decide (tid = stageTimer1 k)) as [->|H1];
    [apply lookup_delete_eq|].
  rewrite lookup_delete_ne by done.
  apply eq_None_not_Some. intros Hs. destruct (Hown tid Hs); done.
Qed.

Lemma inv_step (e : event) (w : world) : inv w → inv (step user_token e w).
Proof.
  intros Hinv.
  destruct e as [text|new_id now|tid|i outcome new_id now| |f| ]; simpl.
  - destruct Hinv as [Hi Hb Hs]. split; simpl; done.
  - by apply inv_handleSend.
  - by apply inv_fire.
  - destruct (awaiting w !! i) as [k|] eqn:Hk; [|done].
    destruct (inv_busy_of_awaiting w i k Hinv Hk) as (Ha & -> & Hown & _).
    unfold handleSend_resume. simpl.
    destruct (Api.sendChatMessage outcome (page w)) as [result page'].
    rewrite (owned_timers_cleared k w Hown), Ha.
    split; simpl.
    + done.
    + done.
    + intros tid stage H. by rewrite lookup_empty in H.
  - destruct Hinv as [Hi Hb Hs]. split; simpl; done.
  - destruct Hinv as [Hi Hb Hs]. split; simpl; done.
  - destruct Hinv as [Hi Hb Hs]. split; simpl; [done| |done].
    intros Hbusy. destruct (Hb Hbusy) as (k & Ha & Hown & H1 & H2).
    exists k. repeat split; [done|done|lia|lia].
Qed.

Lemma inv_run (es : list event) (w : world) : inv w → inv (run user_token es w).
Proof.
  revert w. induction es as [|e es IH]; intros w Hinv; simpl; [done|].
  by apply IH, inv_step.
Qed.

Lemma inv_reachable (b : Browser.t) (es : list event) :
  inv (run user_token es (init b)).
Proof. apply inv_run, inv_init. Qed.

(** A spent timer stays spent: handles are not handed out twice. *)
Lemma spent_step (tid : nat) (e : event) (w : world) :
  spent tid w → spent tid (step user_token e w).
Proof.
  intros [Hnone Hlt].
  destruct e as [text|new_id now|x|i outcome new_id now| |f| ]; simpl;
    try (split; simpl; done).
  - unfold handleSend.
    destruct (negb (truthy (trim (input (ui w))))
              || negb (bool_decide (loadingStage (ui w) = idle)));
      [done|].
    split; simpl; [|lia].
    rewrite !lookup_insert_ne by lia. done.
  - unfold fire. destruct (timers w !! x); [|done].
    split; simpl; [|done]. rewrite lookup_delete_None. by right.
  - destruct (awaiting w !! i) as [k|]; [|done].
    unfold handleSend_resume. simpl.
    destruct (Api.sendChatMessage outcome (page w)) as [result page'].
    split; simpl; [|done].
    rewrite !lookup_delete_None. right. by right.
  - split; simpl; [done|lia].
Qed.

Lemma spent_run (tid : nat) (es : list event) (w : world) :
  spent tid w → spent tid (run user_token es w).
Proof.
  revert w. induction es as [|e es IH]; intros w H; simpl; [done|].
  by apply IH, spent_step.
Qed.

Lemma fire_spent (tid : nat) (w : world) : spent tid w → fire tid w = w.
Proof. intros [H _]. unfold fire. by rewrite H. Qed.

End chat_invariant.

(** ** [components/ChatWindow.tsx]: the claims on turns *)

Section chat_claims.
Import ChatWindow ChatWindowInv.

(** C1.  In a mounted component, when the [sendChatMessage] call of a
    waiting [handleSend] settles, whatever the outcome (a decoded body, a
    status outside 200..299, status 401, or a rejected [fetch]), the stage
    is idle afterwards, the two timers of that call are cleared, no timer
    at all is left scheduled and no call is left waiting; and after any
    further events the two handles are still not scheduled, so the browser
    running them changes nothing. *)
Theorem turn_resolution_resets_stage
    (user_token : jsstring) (b : Browser.t) (es0 : list event)
    (i : nat) (k : turn) (outcome : Api.settled ChatResponse.t)
    (new_id : jsstring) (now : Z) :
  let w := run user_token es0 (init b) in
  awaiting w !! i = Some k →
  let w' := step user_token (Settle i outcome new_id now) w in
  loadingStage (ui w') = idle
  ∧ timers w' !! stageTimer1 k = None
  ∧ timers w' !! stageTimer2 k = None
  ∧ timers w' = ∅
  ∧ awaiting w' = []
  ∧ ∀ (es : list event) (tid : nat),
      tid = stageTimer1 k ∨ tid = stageTimer2 k →
      timers (run user_token es w') !! tid = None
      ∧ step user_token (Timeout tid) (run user_token es w')
        = run user_token es w'.
Proof.
  intros w Hk w'.
  pose proof (inv_reachable user_token b es0) as Hinv. fold w in Hinv.
  destruct (inv_busy_of_awaiting w i k Hinv Hk) as (Ha & -> & Hown & H1 & H2).
  assert (loadingStage (ui w') = idle ∧ timers w' = ∅ ∧ awaiting w' = []
          ∧ next_timer w' = next_timer w) as (Hstage & Htimers & Hwait & Hnext).
  { subst w'. simpl. rewrite Hk. unfold handleSend_resume. simpl.
    destruct (Api.sendChatMessage outcome (page w)) as [result page'].
    simpl. rewrite (owned_timers_cleared k w Hown), Ha. done. }
  split; [done|]. rewrite Htimers, !lookup_empty.
  split; [done|]. split; [done|]. split; [done|]. split; [done|].
  intros es tid Htid.
  assert (spent tid w') as Hspent.
  { split; [by rewrite Htimers, lookup_empty|].
    rewrite Hnext. destruct Htid as [-> | ->]; done. }
  apply (spent_run user_token tid es) in Hspent.
  split; [apply Hspent|]. simpl. by apply fire_spent.
Qed.

(** A turn that ends with status 401 after its first timer has run. *)
Lemma turn_resolution_resets_stage_witness :
  let tok := lit "T1" in
  let b := {| Browser.localStorage := {[ lit "user" := lit "{}" ]};
              Browser.search := []; Browser.navigating := false |} in
  let es0 := [ScrollTimer; Type_ (lit "List my PDFs"); Send (lit "m1") 0%Z;
              ScrollTimer; Timeout 2%nat] in
  let k := {| stageTimer1 := 2%nat; stageTimer2 := 3%nat;
              request := {| Api.message := lit "List my PDFs";
                            Api.history := [];
                            Api.token := tok;
                            Api.folder_id := None |} |} in
  let outcome := Api.Fulfilled {| Api.status := 401; Api.text := [];
                                  Api.json := Throw Thrown |} in
  loadingStage (ui (run tok es0 (init b))) = reading
  ∧ awaiting (run tok es0 (init b)) !! 0%nat = Some k
  ∧ loadingStage
      (ui (step tok (Settle 0%nat outcome (lit "m2") 1%Z)
             (run tok es0 (init b)))) = idle.
Proof.
  intros tok b es0 k outcome.
  split; [reflexivity|]. split; [reflexivity|].
  exact (proj1 (turn_resolution_resets_stage tok b es0 0%nat k outcome
                  (lit "m2") 1%Z eq_refl)).
Defined.

(** C2.  [handleSend] called while the input is empty or white space only,
    or while the stage is not idle, changes nothing: no message is
    appended, the stage stays, no request is handed to [fetch], no timer is
    scheduled.  Hence in every state a mounted component can reach, at most
    one call waits for the backend, one waits exactly when the stage is not
    idle, and a [handleSend] at a stage that is not idle sends nothing. *)
Theorem handleSend_rejects_blank_or_busy (user_token : jsstring) :
  (∀ (new_id : jsstring) (now : Z) (w : world),
     forallb is_white_space (input (ui w)) = true
     ∨ loadingStage (ui w) ≠ idle →
     handleSend user_token new_id now w = w
     ∧ messages (ui (handleSend user_token new_id now w)) = messages (ui w)
     ∧ loadingStage (ui (handleSend user_token new_id now w))
       = loadingStage (ui w)
     ∧ sent (handleSend user_token new_id now w) = sent w)
  ∧ (∀ (b : Browser.t) (es : list event),
       let v := run user_token es (init b) in
       (length (awaiting v) ≤ 1)%nat
       ∧ (loadingStage (ui v) = idle ↔ awaiting v = [])
       ∧ (loadingStage (ui v) ≠ idle →
          ∀ (new_id : jsstring) (now : Z),
            sent (step user_token (Send new_id now) v) = sent v
            ∧ awaiting (step user_token (Send new_id now) v) = awaiting v)).
Proof.
  split.
  { intros new_id now w H. by rewrite (handleSend_rejected _ _ _ _ H). }
  intros b es v.
  pose proof (inv_reachable user_token b es) as Hinv. fold v in Hinv.
  split; [|split].
  - destruct (decide (loadingStage (ui v) = idle)) as [Hidle|Hbusy].
    + destruct (inv_idle v Hinv Hidle) as [-> _]. simpl. lia.
    + destruct (inv_busy v Hinv Hbusy) as (k & -> & _). simpl. lia.
  - split.
    + intros Hidle. by destruct (inv_idle v Hinv Hidle).
    + intros Ha. destruct (decide (loadingStage (ui v) = idle)) as [|Hbusy];
        [done|].
      destruct (inv_busy v Hinv Hbusy) as (k & Hk & _). congruence.
  - intros Hbusy new_id now. simpl.
    rewrite handleSend_rejected by (by right). done.
Qed.

(** A second send while the first turn is in flight, and a send of blanks
    while idle. *)
Lemma handleSend_rejects_blank_or_busy_witness :
  let tok := lit "T1" in
  let b := {| Browser.localStorage := ∅; Browser.search := [];
              Browser.navigating := false |} in
  let w := run tok [ScrollTimer; Type_ (lit "first"); Send (lit "m1") 0%Z;
                    Type_ (lit "second")] (init b) in
  let w0 := run tok [Type_ [0x20; 0xA0; 0x9]] (init b) in
  loadingStage (ui w) ≠ idle
  ∧ handleSend tok (lit "m2") 1%Z w = w
  ∧ forallb is_white_space (input (ui w0)) = true
  ∧ handleSend tok (lit "m2") 1%Z w0 = w0.
Proof.
  intros tok b w w0.
  assert (loadingStage (ui w) ≠ idle) as H by discriminate.
  split; [exact H|]. split.
  - exact (proj1 (proj1 (handleSend_rejects_blank_or_busy tok)
                    (lit "m2") 1%Z w (or_intror H))).
  - split; [reflexivity|].
    exact (proj1 (proj1 (handleSend_rejects_blank_or_busy tok)
                    (lit "m2") 1%Z w0 (or_introl eq_refl))).
Defined.

End chat_claims.

Section chat_request.
Import ChatWindow.

(** The end-to-end case of a body whose [error] is set. *)
Lemma handleSend_success_message_witness :
  let data := {| ChatResponse.answer := [];
                 ChatResponse.intermediate_steps := [];
                 ChatResponse.tokens := 0%Z;
                 ChatResponse.error := Some (lit "backend timeout") |} in
  let response := {| Api.status := 200; Api.text := lit "{...}";
                     Api.json := Return data |} in
  let k := {| stageTimer1 := 1%nat; stageTimer2 := 2%nat;
              request := {| Api.message := lit "hello"; Api.history := [];
                            Api.token := lit "T1"; Api.folder_id := None |} |} in
  let w := init {| Browser.localStorage := ∅; Browser.search := [];
                   Browser.navigating := false |} in
  Api.ok response = true
  ∧ ∃ m : Message.t,
      messages (ui (handleSend_resume k (Api.Fulfilled response) (lit "m2") 1%Z w))
        = messages (ui w) ++ [m]
      ∧ Message.content m = [0x274C; 0x20] ++ lit "backend timeout"
      ∧ Message.isError m = Some true
      ∧ Message.tokens m = Some 0%Z.
Proof.
  intros data response k w. split; [reflexivity|].
  destruct (handleSend_success_message k response data (lit "m2") 1%Z w
              eq_refl eq_refl)
    as (m & Hm & _ & _ & Htok & Herr & _).
  exists m. split; [exact Hm|].
  destruct (Herr (lit "backend timeout") eq_refl ltac:(discriminate))
    as [Hc He].
  split; [exact Hc|]. split; [exact He | exact Htok].
Defined.

(** C5.  An accepted [handleSend] hands [fetch] one request.  Its history
    is made of the messages held before the call (the new user message is
    appended to the state, not to the request): the last ten of them, or
    all when there are fewer, in their order, each as its role and content
    only.  With twelve messages before the call the history is the ten that
    follow the first two. *)
Theorem handleSend_history_window
    (user_token new_id : jsstring) (now : Z) (w : world) :
  trim (input (ui w)) ≠ [] →
  loadingStage (ui w) = idle →
  let prior := messages (ui w) in
  let entry := fun m : Message.t =>
    {| Api.role := Message.role m; Api.content := Message.content m |} in
  ∃ (request : Api.ChatRequest) (userMsg : Message.t),
    sent (handleSend user_token new_id now w) = sent w ++ [request]
    ∧ messages (ui (handleSend user_token new_id now w)) = prior ++ [userMsg]
    ∧ Message.content userMsg = trim (input (ui w))
    ∧ Api.message request = trim (input (ui w))
    ∧ Api.history request = entry <$> drop (length prior - 10) prior
    ∧ length (Api.history request) = (length prior `min` 10)%nat
    ∧ (∀ j : nat, (j < length (Api.history request))%nat →
         Api.history request !! j
         = entry <$> prior !! (length prior - length (Api.history request) + j)%nat)
    ∧ (length prior = 12%nat →
         Api.history request = entry <$> drop 2 prior
         ∧ length (Api.history request) = 10%nat).
Proof.
  intros Htext Hidle prior entry.
  rewrite (handleSend_accepted _ _ _ _ Htext Hidle). simpl.
  eexists _, _. split; [reflexivity|]. split; [reflexivity|]. simpl.
  split; [reflexivity|]. split; [reflexivity|].
  fold prior. unfold window_history, slice_last. fold entry.
  assert (length (entry <$> drop (length prior - 10) prior)
          = (length prior `min` 10)%nat) as Hlen
    by (rewrite length_fmap, length_drop; lia).
  split; [reflexivity|]. split; [exact Hlen|]. split.
  - intros j Hj. rewrite Hlen in *.
    rewrite list_lookup_fmap, lookup_drop. do 2 f_equal. lia.
  - intros H12. rewrite Hlen, H12. done.
Qed.

End chat_request.

Section chat_request_witness.
Import ChatWindow.

(** Twelve messages before the call: numbers 2 to 11 are sent. *)
Lemma handleSend_history_window_witness :
  let numbered := fun n : nat =>
    {| Message.id := [N.of_nat n]; Message.role := user;
       Message.content := [N.of_nat n]; Message.timestamp := Z.of_nat n;
       Message.steps := Some []; Message.isError := Some false;
       Message.tokens := Some 7%Z |} in
  let w :=
    {| ui := {| messages := numbered <$> seq 0 12; input := lit " next ";
                loadingStage := idle; selectedFolderId := None |};
       timers := ∅; next_timer := 1%nat; awaiting := []; sent := [];
       page := {| Browser.localStorage := ∅; Browser.search := [];
                  Browser.navigating := false |} |} in
  trim (input (ui w)) ≠ []
  ∧ loadingStage (ui w) = idle
  ∧ Api.history <$> sent (handleSend (lit "T1") (lit "m13") 13%Z w)
    = [(fun n : nat => {| Api.role := user; Api.content := [N.of_nat n] |})
         <$> seq 2 10].
Proof.
  intros numbered w.
  assert (trim (input (ui w)) ≠ []) as Htext by discriminate.
  split; [exact Htext|]. split; [reflexivity|].
  destruct (handleSend_history_window (lit "T1") (lit "m13") 13%Z w
              Htext eq_refl)
    as (request & userMsg & Hsent & _ & _ & _ & _ & _ & _ & H12).
  rewrite Hsent. destruct (H12 eq_refl) as [H _].
  change (Api.history <$> sent w ++ [request]) with [Api.history request].
  rewrite H. reflexivity.
Defined.

End chat_request_witness.

(** ** [app/page.tsx] *)

Section home.

Lemma restore_ignores_address (b : Browser.t) (h : Home.state)
    (params : list (jsstring * jsstring)) (nav : bool) :
  let b' := {| Browser.localStorage := Browser.localStorage b;
               Browser.search := params; Browser.navigating := nav |} in
  (Home.restore b' h).2 = (Home.restore b h).2
  ∧ Browser.localStorage (Home.restore b' h).1
    = Browser.localStorage (Home.restore b h).1.
Proof.
  unfold Home.restore, Browser.getItem. simpl.
  destruct (Browser.localStorage b !! lit "user") as [stored|]; [|done].
  destruct (truthy stored); [|done].
  destruct (JSON.parse stored); done.
Qed.

Lemma effect_no_callback (b : Browser.t) (h : Home.state) :
  truthy_opt (Browser.params_get (lit "token") (Browser.search b))
  && truthy_opt (Browser.params_get (lit "email") (Browser.search b)) = false →
  Home.effect b h
  = ((Home.restore b h).1,
     {| Home.user := Home.user (Home.restore b h).2; Home.loading := false |}).
Proof.
  intros H. unfold Home.effect. rewrite H.
  by destruct (Home.restore b h).
Qed.

Lemma effect_callback (b : Browser.t) (h : Home.state) (token email : jsstring) :
  Browser.params_get (lit "token") (Browser.search b) = Some token →
  Browser.params_get (lit "email") (Browser.search b) = Some email →
  token ≠ [] → email ≠ [] →
  Home.effect b h
  = (Browser.replaceState_root
       (Browser.setItem (lit "user")
          (JSON.stringify
             (Home.newUser token
                (Browser.params_get (lit "name") (Browser.search b)) email
                (Browser.params_get (lit "picture") (Browser.search b)))) b),
     {| Home.user :=
          Home.newUser token
            (Browser.params_get (lit "name") (Browser.search b)) email
            (Browser.params_get (lit "picture") (Browser.search b));
        Home.loading := false |}).
Proof.
  intros Ht He Hte Hee. unfold Home.effect. rewrite Ht, He. simpl.
  apply truthy_true_iff in Hte, Hee. rewrite Hte, Hee. reflexivity.
Qed.

Lemma restore_stored (b : Browser.t) (h : Home.state) (stored : jsstring)
    (v : JSON.json) :
  Browser.getItem (lit "user") b = Some stored →
  stored ≠ [] →
  JSON.parse stored = Return v →
  Home.restore b h = (b, {| Home.user := v; Home.loading := Home.loading h |}).
Proof.
  intros Hs Hne Hv. unfold Home.restore. rewrite Hs.
  apply truthy_true_iff in Hne. by rewrite Hne, Hv.
Qed.

(** Replay safety for any callback: after the callback has been ingested,
    loading the page again restores the session that was built from it and
    changes nothing. *)
Lemma callback_replay_safe (b : Browser.t) (token email : jsstring) :
  Browser.params_get (lit "token") (Browser.search b) = Some token →
  Browser.params_get (lit "email") (Browser.search b) = Some email →
  token ≠ [] → email ≠ [] →
  let session :=
    Home.newUser token (Browser.params_get (lit "name") (Browser.search b))
      email (Browser.params_get (lit "picture") (Browser.search b)) in
  let b1 := (Home.load b).1 in
  Home.user (Home.load b).2 = session
  ∧ Browser.getItem (lit "user") b1 = Some (JSON.stringify session)
  ∧ Browser.search b1 = []
  ∧ Home.restore b1 Home.mount
    = (b1, {| Home.user := session; Home.loading := true |})
  ∧ Home.load b1 = (b1, {| Home.user := session; Home.loading := false |}).
Proof.
  intros Ht He Hte Hee session b1.
  assert (Home.load b
          = (Browser.replaceState_root
               (Browser.setItem (lit "user") (JSON.stringify session) b),
             {| Home.user := session; Home.loading := false |})) as Hload
    by (by apply effect_callback).
  assert (Browser.getItem (lit "user") b1 = Some (JSON.stringify session))
    as Hget.
  { unfold b1. rewrite Hload. apply lookup_insert_eq. }
  assert (Browser.search b1 = []) as Hsearch
    by (unfold b1; by rewrite Hload).
  assert (Home.restore b1 Home.mount
          = (b1, {| Home.user := session; Home.loading := true |}))
    as Hrestore.
  { apply (restore_stored b1 Home.mount _ _ Hget).
    - discriminate.
    - apply parse_stringify_newUser. }
  split; [by rewrite Hload|]. split; [exact Hget|].
  split; [exact Hsearch|]. split; [exact Hrestore|].
  unfold Home.load. rewrite effect_no_callback by (by rewrite Hsearch).
  by rewrite Hrestore.
Qed.

(** C7.  Loading the page with the callback parameters token=T1,
    email=e@x.com, name=Jo and an empty picture, whatever [localStorage]
    held: the component holds the session with these four fields, the
    session is stored under the key "user", and the address no longer
    carries parameters.  Loading the page again then takes the restore
    branch (there is no token parameter to ingest), yields the same
    session and leaves the browser as it was. *)
Theorem oauth_callback_replay_safe
    (storage : gmap jsstring jsstring) (nav : bool) :
  let callback := [(lit "token", lit "T1"); (lit "email", lit "e@x.com");
                   (lit "name", lit "Jo"); (lit "picture", [])] in
  let b0 := {| Browser.localStorage := storage; Browser.search := callback;
               Browser.navigating := nav |} in
  let session :=
    JSON.JObj [(lit "token", JSON.JStr (lit "T1"));
               (lit "name", JSON.JStr (lit "Jo"));
               (lit "email", JSON.JStr (lit "e@x.com"));
               (lit "picture", JSON.JStr [])] in
  let b1 := (Home.load b0).1 in
  Home.user (Home.load b0).2 = session
  ∧ Browser.getItem (lit "user") b1 = Some (JSON.stringify session)
  ∧ Browser.search b1 = []
  ∧ Browser.params_get (lit "token") (Browser.search b1) = None
  ∧ Home.load b1
    = ((Home.restore b1 Home.mount).1,
       {| Home.user := Home.user (Home.restore b1 Home.mount).2;
          Home.loading := false |})
  ∧ Home.user (Home.load b1).2 = session
  ∧ (Home.load b1).1 = b1.
Proof.
  intros callback b0 session b1.
  destruct (callback_replay_safe b0 (lit "T1") (lit "e@x.com")
              eq_refl eq_refl ltac:(discriminate) ltac:(discriminate))
    as (Huser & Hget & Hsearch & Hrestore & Hsecond).
  fold b1 in Hget, Hsearch, Hrestore, Hsecond.
  split; [exact Huser|]. split; [exact Hget|]. split; [exact Hsearch|].
  split; [by rewrite Hsearch|].
  rewrite Hsecond, Hrestore. done.
Qed.

(** C9.  The callback is ingested when the token and the email parameters
    are both present and non-empty: the session takes them, takes "User"
    as its name when the name parameter is absent, and the empty string as
    its picture when the picture parameter is absent; it is stored under
    "user".  When the token or the email parameter is missing (or empty)
    nothing is built from the callback and the stored entry is read
    instead: with nothing stored, or the empty string, the user and the
    browser stay as they are; a stored text that parses becomes the user
    and stays stored; a stored text that does not parse is removed and the
    user stays as it is.  None of this depends on the address. *)
Theorem callback_ingestion_condition (b : Browser.t) (h : Home.state) :
  let param := fun name : jsstring =>
    Browser.params_get name (Browser.search b) in
  (∀ token email : jsstring,
     param (lit "token") = Some token → param (lit "email") = Some email →
     token ≠ [] → email ≠ [] →
     ∃ name picture : jsstring,
       Home.user (Home.effect b h).2
         = JSON.JObj [(lit "token", JSON.JStr token);
                      (lit "name", JSON.JStr name);
                      (lit "email", JSON.JStr email);
                      (lit "picture", JSON.JStr picture)]
       ∧ Browser.getItem (lit "user") (Home.effect b h).1
         = Some (JSON.stringify (Home.user (Home.effect b h).2))
       ∧ (param (lit "name") = None → name = lit "User")
       ∧ (∀ n, param (lit "name") = Some n → n ≠ [] → name = n)
       ∧ (param (lit "picture") = None → picture = [])
       ∧ (∀ p, param (lit "picture") = Some p → picture = p))
  ∧ (param (lit "token") = None ∨ param (lit "email") = None
     ∨ param (lit "token") = Some [] ∨ param (lit "email") = Some [] →
     Home.effect b h
       = ((Home.restore b h).1,
          {| Home.user := Home.user (Home.restore b h).2;
             Home.loading := false |})
     ∧ (∀ (params : list (jsstring * jsstring)),
         (Home.restore
            {| Browser.localStorage := Browser.localStorage b;
               Browser.search := params;
               Browser.navigating := Browser.navigating b |} h).2
         = (Home.restore b h).2)
     ∧ (Browser.getItem (lit "user") b = None
        ∨ Browser.getItem (lit "user") b = Some [] →
        Home.effect b h
        = (b, {| Home.user := Home.user h; Home.loading := false |}))
     ∧ (∀ (stored : jsstring) (v : JSON.json),
          Browser.getItem (lit "user") b = Some stored → stored ≠ [] →
          JSON.parse stored = Return v →
          Home.effect b h
          = (b, {| Home.user := v; Home.loading := false |}))
     ∧ (∀ (stored : jsstring) (e : exn),
          Browser.getItem (lit "user") b = Some stored → stored ≠ [] →
          JSON.parse stored = Throw e →
          Home.effect b h
          = (Browser.removeItem (lit "user") b,
             {| Home.user := Home.user h; Home.loading := false |}))).
Proof.
  intros param. split.
  - intros token email Ht He Hte Hee.
    rewrite (effect_callback b h token email Ht He Hte Hee).
    exists (or_else (param (lit "name")) (lit "User")), (or_else (param (lit "picture")) []).
    split; [reflexivity|]. split; [apply lookup_insert_eq|].
    split; [by intros ->|]. split.
    + intros n -> Hn. apply truthy_true_iff in Hn. simpl. by rewrite Hn.
    + split; [by intros ->|]. intros p ->. by destruct p.
  - intros Hmissing.
    assert (Home.effect b h
            = ((Home.restore b h).1,
               {| Home.user := Home.user (Home.restore b h).2;
                  Home.loading := false |})) as Heffect.
    { apply effect_no_callback.
      fold (param (lit "token")) (param (lit "email")).
      destruct Hmissing as [-> | [-> | [-> | ->]]];
        [done | apply andb_false_r | done | apply andb_false_r]. }
    split; [exact Heffect|].
    split; [intros params; apply restore_ignores_address|].
    rewrite Heffect. unfold Home.restore. split; [|split].
    + by intros [-> | ->].
    + intros stored v -> Hne ->. apply truthy_true_iff in Hne.
      by rewrite Hne.
    + intros stored e -> Hne ->. apply truthy_true_iff in Hne.
      by rewrite Hne.
Qed.

End home.

Section home_restore.

(** A callback without name and picture; and an address with a token but
    no email over a stored session, which is restored as it is, the token
    of the address playing no part. *)
Lemma callback_ingestion_condition_witness :
  let b := {| Browser.localStorage := ∅;
              Browser.search := [(lit "token", lit "T1");
                                 (lit "email", lit "e@x.com")];
              Browser.navigating := false |} in
  let kept := Home.newUser (lit "T0") (Some (lit "Ann")) (lit "a@x.com") None in
  let b' := {| Browser.localStorage := {[ lit "user" := JSON.stringify kept ]};
               Browser.search := [(lit "token", lit "T1")];
               Browser.navigating := false |} in
  Home.user (Home.effect b Home.mount).2
  = JSON.JObj [(lit "token", JSON.JStr (lit "T1"));
               (lit "name", JSON.JStr (lit "User"));
               (lit "email", JSON.JStr (lit "e@x.com"));
               (lit "picture", JSON.JStr [])]
  ∧ Home.effect b' Home.mount
    = (b', {| Home.user :=
                JSON.JObj [(lit "token", JSON.JStr (lit "T0"));
                           (lit "name", JSON.JStr (lit "Ann"));
                           (lit "email", JSON.JStr (lit "a@x.com"));
                           (lit "picture", JSON.JStr [])];
              Home.loading := false |}).
Proof.
  intros b kept b'. split.
  - destruct (proj1 (callback_ingestion_condition b Home.mount)
                (lit "T1") (lit "e@x.com") eq_refl eq_refl
                ltac:(discriminate) ltac:(discriminate))
      as (name & picture & Hu & _ & Hn & _ & Hp & _).
    rewrite Hu, (Hn eq_refl), (Hp eq_refl). reflexivity.
  - refine (proj1 (proj2 (proj2 (proj2
              (proj2 (callback_ingestion_condition b' Home.mount)
                 (or_intror (or_introl eq_refl))))))
              (JSON.stringify kept) kept eq_refl _ _).
    + vm_compute. discriminate.
    + vm_compute. reflexivity.
Defined.

(** C10, as stated, fails on the empty string: it is stored, it is not
    JSON, and the restore branch leaves it where it is, because the branch
    only looks at a stored text that is truthy. *)
Lemma restore_keeps_empty_payload :
  let b := {| Browser.localStorage := {[ lit "user" := [] ]};
              Browser.search := []; Browser.navigating := false |} in
  Browser.getItem (lit "user") b = Some []
  ∧ JSON.parse [] = Throw (SyntaxError (lit "Unexpected token in JSON"))
  ∧ Home.user (Home.load b).2 = JSON.JNull
  ∧ Browser.getItem (lit "user") (Home.load b).1 = Some []
  ∧ Browser.getItem (lit "user") (Home.restore b Home.mount).1 ≠ None.
Proof. repeat split; try reflexivity. discriminate. Qed.

(** C10, amended.  When the text stored under "user" is not empty and
    [JSON.parse] throws on it, the restore branch catches the error, leaves
    the component without a user and removes the entry; restoring again
    finds nothing stored and changes nothing. *)
Theorem restore_purges_malformed
    (b : Browser.t) (h : Home.state) (stored : jsstring) (e : exn) :
  Browser.getItem (lit "user") b = Some stored →
  stored ≠ [] →
  JSON.parse stored = Throw e →
  Home.restore b h = (Browser.removeItem (lit "user") b, h)
  ∧ Browser.getItem (lit "user") (Home.restore b h).1 = None
  ∧ ∀ h' : Home.state,
      Home.restore (Home.restore b h).1 h' = ((Home.restore b h).1, h').
Proof.
  intros Hs Hne He.
  assert (Home.restore b h = (Browser.removeItem (lit "user") b, h)) as Hr.
  { unfold Home.restore. rewrite Hs. apply truthy_true_iff in Hne.
    by rewrite Hne, He. }
  assert (Browser.getItem (lit "user") (Browser.removeItem (lit "user") b) = None)
    as Hgone by apply lookup_delete_eq.
  rewrite Hr. split; [done|]. split; [exact Hgone|].
  intros h'. unfold Home.restore. simpl fst. by rewrite Hgone.
Qed.

(** A truncated object under "user". *)
Lemma restore_purges_malformed_witness :
  let b := {| Browser.localStorage := {[ lit "user" := lit "{not json" ]};
              Browser.search := []; Browser.navigating := false |} in
  Browser.getItem (lit "user") b = Some (lit "{not json")
  ∧ JSON.parse (lit "{not json")
    = Throw (SyntaxError (lit "Unexpected token in JSON"))
  ∧ Browser.getItem (lit "user") (Home.restore b Home.mount).1 = None.
Proof.
  intros b. split; [reflexivity|]. split; [reflexivity|].
  exact (proj1 (proj2 (restore_purges_malformed b Home.mount
                         (lit "{not json")
                         (SyntaxError (lit "Unexpected token in JSON"))
                         eq_refl ltac:(discriminate) eq_refl))).
Defined.

End home_restore.

(** ** [components/FolderSelector.tsx] *)

Section folders.
Import FolderSelector.

(** C8, as stated, fails: opening the selector, closing it and opening it
    again before the first [fetchFolders] call has settled makes a second
    call.  The [loading] flag is set but the effect does not read it. *)
Lemma folder_open_not_coalesced :
  let token := lit "T1" in
  let w := run token [Toggle; Close] init in
  pending w = 1%nat
  ∧ loading (ui w) = true
  ∧ folders (ui w) = []
  ∧ isOpen (ui w) = false
  ∧ calls w = [token]
  ∧ calls (step token Toggle w) = [token; token]
  ∧ pending (step token Toggle w) = 2%nat.
Proof. repeat split. Qed.

Lemma step_toggle_closed (token : jsstring) (w : world) :
  isOpen (ui w) = false →
  step token Toggle w
  = effect token
      {| ui := {| folders := folders (ui w); isOpen := true;
                  search := search (ui w); loading := loading (ui w) |};
         pending := pending w; calls := calls w |}.
Proof.
  intros Hclosed. unfold step, commit, handle, set_ui, deps. simpl.
  rewrite Hclosed. by case_decide.
Qed.

(** C8, amended.  Opening the closed selector while no folder is held
    makes exactly one [fetchFolders] call with the component's token and
    sets [loading], whether or not an earlier call is still pending;
    opening it while folders are held makes no call; closing it makes no
    call. *)
Theorem folder_open_fetches_when_empty (token : jsstring) (w : world) :
  (isOpen (ui w) = false → folders (ui w) = [] →
     calls (step token Toggle w) = calls w ++ [token]
     ∧ pending (step token Toggle w) = S (pending w)
     ∧ loading (ui (step token Toggle w)) = true
     ∧ isOpen (ui (step token Toggle w)) = true)
  ∧ (isOpen (ui w) = false → folders (ui w) ≠ [] →
     calls (step token Toggle w) = calls w
     ∧ pending (step token Toggle w) = pending w
     ∧ isOpen (ui (step token Toggle w)) = true)
  ∧ (isOpen (ui w) = true →
     calls (step token Toggle w) = calls w
     ∧ calls (step token Close w) = calls w
     ∧ pending (step token Toggle w) = pending w).
Proof.
  split; [|split].
  - intros Hclosed Hempty. rewrite (step_toggle_closed _ _ Hclosed).
    unfold effect. simpl. rewrite Hempty. done.
  - intros Hclosed Hheld. rewrite (step_toggle_closed _ _ Hclosed).
    unfold effect. simpl.
    rewrite bool_decide_eq_false_2; [done|].
    by destruct (folders (ui w)).
  - intros Hopen. unfold step, commit, handle, set_ui, deps, effect. simpl.
    rewrite Hopen. simpl.
    repeat split; case_decide; done.
Qed.

(** The first opening of a fresh selector, and the opening that follows a
    closing while the first call is pending. *)
Lemma folder_open_fetches_when_empty_witness :
  let token := lit "T1" in
  calls (step token Toggle init) = [token]
  ∧ calls (step token Toggle (run token [Toggle; Close] init))
    = [token; token].
Proof.
  intros token. split.
  - exact (proj1 (proj1 (folder_open_fetches_when_empty token init)
                    eq_refl eq_refl)).
  - exact (proj1 (proj1 (folder_open_fetches_when_empty token
                           (run token [Toggle; Close] init))
                    eq_refl eq_refl)).
Defined.

End folders.

(** * Further properties *)

(** ** The session across page loads *)

Section session_lifecycle.

Lemma effect_loading (b : Browser.t) (h : Home.state) :
  Home.loading (Home.effect b h).2 = false.
Proof.
  unfold Home.effect.
  by destruct (if _ : bool then _ else _) as [b' h'].
Qed.

Lemma restore_search (b : Browser.t) (h : Home.state) :
  Browser.search (Home.restore b h).1 = Browser.search b.
Proof.
  unfold Home.restore.
  destruct (Browser.getItem (lit "user") b) as [stored|]; [|done].
  destruct (truthy stored); [|done].
  by destruct (JSON.parse stored).
Qed.

(** Restoring twice is restoring once. *)
Lemma restore_twice (b : Browser.t) (h : Home.state) :
  Home.restore (Home.restore b h).1 h = Home.restore b h.
Proof.
  unfold Home.restore at 2 3.
  destruct (Browser.getItem (lit "user") b) as [stored|] eqn:Hs.
  2: { simpl. unfold Home.restore. by rewrite Hs. }
  destruct (truthy stored) eqn:Ht.
  2: { simpl. unfold Home.restore. by rewrite Hs, Ht. }
  destruct (JSON.parse stored) as [v|e] eqn:Hp; simpl.
  - unfold Home.restore. by rewrite Hs, Ht, Hp.
  - unfold Home.restore, Browser.getItem, Browser.removeItem. simpl.
    by rewrite lookup_delete_eq.
Qed.

Lemma truthy_opt_Some (o : option jsstring) :
  truthy_opt o = true → ∃ s, o = Some s ∧ s ≠ [].
Proof.
  destruct o as [s|]; [|discriminate]. simpl. intros H.
  exists s. split; [done|]. by apply truthy_true_iff.
Qed.

(** X1.  Loading the page a second time changes nothing: whatever the
    address and [localStorage] hold, the second load ends with the same
    browser state and the same user as the first. *)
Theorem page_load_idempotent (b : Browser.t) :
  Home.load (Home.load b).1 = Home.load b.
Proof.
  destruct (truthy_opt (Browser.params_get (lit "token") (Browser.search b))
            && truthy_opt (Browser.params_get (lit "email") (Browser.search b)))
    eqn:Hcb.
  - apply andb_true_iff in Hcb as [Ht He].
    apply truthy_opt_Some in Ht as (token & Ht & Hte).
    apply truthy_opt_Some in He as (email & He & Hee).
    destruct (callback_replay_safe b token email Ht He Hte Hee)
      as (Huser & _ & _ & _ & Hsecond).
    rewrite Hsecond.
    pose proof (effect_loading b Home.mount) as Hl.
    unfold Home.load in *.
    destruct (Home.effect b Home.mount) as [b1 [u l]].
    simpl in *. by subst.
  - unfold Home.load. rewrite (effect_no_callback b Home.mount Hcb). simpl.
    rewrite effect_no_callback by (by rewrite restore_search).
    by rewrite restore_twice.
Qed.

(** X2.  For every callback with a non-empty token and a non-empty email
    (any name and picture, any characters in them), the text stored by the
    ingestion parses back to the very object the component holds: the next
    load of the page yields that session through the restore branch and
    leaves the browser unchanged. *)
Theorem stored_session_round_trip (b : Browser.t) (token email : jsstring) :
  Browser.params_get (lit "token") (Browser.search b) = Some token →
  Browser.params_get (lit "email") (Browser.search b) = Some email →
  token ≠ [] → email ≠ [] →
  let session :=
    Home.newUser token (Browser.params_get (lit "name") (Browser.search b))
      email (Browser.params_get (lit "picture") (Browser.search b)) in
  let b1 := (Home.load b).1 in
  JSON.parse (JSON.stringify session) = Return session
  ∧ Home.user (Home.load b).2 = session
  ∧ Browser.getItem (lit "user") b1 = Some (JSON.stringify session)
  ∧ Home.restore b1 Home.mount
    = (b1, {| Home.user := session; Home.loading := true |})
  ∧ Home.load b1 = (b1, {| Home.user := session; Home.loading := false |}).
Proof.
  intros Ht He Hte Hee session b1.
  destruct (callback_replay_safe b token email Ht He Hte Hee)
    as (Huser & Hget & _ & Hrestore & Hsecond).
  split; [apply parse_stringify_newUser|]. done.
Qed.

(** A token with a quote, a backslash, a line feed and a lone surrogate. *)
Lemma stored_session_round_trip_witness :
  let token := [0x22; 0x5C; 0xA; 0xD800; 0x41] in
  let b := {| Browser.localStorage := ∅;
              Browser.search := [(lit "token", token);
                                 (lit "email", lit "e@x.com")];
              Browser.navigating := false |} in
  Home.user (Home.load (Home.load b).1).2
  = JSON.JObj [(lit "token", JSON.JStr token);
               (lit "name", JSON.JStr (lit "User"));
               (lit "email", JSON.JStr (lit "e@x.com"));
               (lit "picture", JSON.JStr [])].
Proof.
  intros token b.
  destruct (stored_session_round_trip b token (lit "e@x.com")
              eq_refl eq_refl ltac:(discriminate) ltac:(discriminate))
    as (_ & _ & _ & _ & Hsecond).
  rewrite Hsecond. reflexivity.
Defined.

Lemma restore_frame (b : Browser.t) (h : Home.state) (k : jsstring) :
  k ≠ lit "user" →
  Browser.localStorage (Home.restore b h).1 !! k = Browser.localStorage b !! k.
Proof.
  intros Hk. unfold Home.restore.
  destruct (Browser.getItem (lit "user") b) as [stored|]; [|done].
  destruct (truthy stored); [|done].
  destruct (JSON.parse stored); [done|].
  simpl. by apply lookup_delete_ne.
Qed.

(** X3.  The code writes [localStorage] under the key "user" only: the
    mount effect of [Home], its [handleLogout], [sendChatMessage] and
    [logoutUser] leave the entry of every other key as it was. *)
Theorem only_user_key_written (k : jsstring) (b : Browser.t) :
  k ≠ lit "user" →
  (∀ h, Browser.localStorage (Home.effect b h).1 !! k
        = Browser.localStorage b !! k)
  ∧ (∀ h, Browser.localStorage (Home.handleLogout b h).1 !! k
          = Browser.localStorage b !! k)
  ∧ (∀ outcome, Browser.localStorage (Api.sendChatMessage outcome b).2 !! k
                = Browser.localStorage b !! k)
  ∧ (∀ outcome, Browser.localStorage (Api.logoutUser outcome b) !! k
                = Browser.localStorage b !! k).
Proof.
  intros Hk. split; [|split; [|split]].
  - intros h. unfold Home.effect.
    destruct (truthy_opt _ && truthy_opt _).
    + simpl. by apply lookup_insert_ne.
    + pose proof (restore_frame b h k Hk) as H.
      by destruct (Home.restore b h).
  - intros h. simpl. by apply lookup_delete_ne.
  - intros [response|e]; [|done]. unfold Api.sendChatMessage.
    destruct (Api.status response =? 401).
    + simpl. by apply lookup_delete_ne.
    + by destruct (negb (Api.ok response)).
  - intros outcome. simpl. by apply lookup_delete_ne.
Qed.

Lemma only_user_key_written_witness :
  let b := {| Browser.localStorage :=
                {[ lit "user" := lit "{}"; lit "theme" := lit "dark" ]};
              Browser.search := []; Browser.navigating := false |} in
  let denied := Api.Fulfilled {| Api.status := 401; Api.text := [];
                                 Api.json := Throw Thrown |} in
  Browser.localStorage (Api.sendChatMessage denied b).2 !! lit "theme"
  = Some (lit "dark").
Proof.
  intros b denied.
  exact (proj1 (proj2 (proj2 (only_user_key_written (lit "theme") b
                                ltac:(discriminate)))) denied).
Defined.

(** X4.  Signing out ends the session whatever the backend answers:
    after [handleLogout], with the logout request fulfilled, refused or
    rejected, nothing is stored under "user" and the component holds no
    user; and a page loaded afterwards from an address without callback
    parameters still holds no user. *)
Theorem logout_ends_session
    (outcome : Api.settled unit) (b : Browser.t) (h : Home.state) :
  truthy_opt (Browser.params_get (lit "token") (Browser.search b))
  && truthy_opt (Browser.params_get (lit "email") (Browser.search b)) = false →
  let b' := (ChatView.handleLogout outcome b h).1 in
  Browser.getItem (lit "user") b' = None
  ∧ Home.user (ChatView.handleLogout outcome b h).2 = JSON.JNull
  ∧ Home.load b' = (b', {| Home.user := JSON.JNull; Home.loading := false |}).
Proof.
  intros Hcb b'.
  assert (Browser.getItem (lit "user") b' = None) as Hnone.
  { unfold b', Browser.getItem. simpl. apply lookup_delete_eq. }
  split; [exact Hnone|]. split; [reflexivity|].
  unfold Home.load. rewrite effect_no_callback by exact Hcb.
  unfold Home.restore. by rewrite Hnone.
Qed.

Lemma logout_ends_session_witness :
  let b := {| Browser.localStorage := {[ lit "user" := lit "{}" ]};
              Browser.search := []; Browser.navigating := false |} in
  let h := {| Home.user := JSON.JObj []; Home.loading := false |} in
  let outcome := Api.Rejected (TypeError (lit "Failed to fetch")) in
  Home.user (Home.load (ChatView.handleLogout outcome b h).1).2 = JSON.JNull.
Proof.
  intros b h outcome.
  destruct (logout_ends_session outcome b h eq_refl) as (_ & _ & Hload).
  rewrite Hload. reflexivity.
Defined.

End session_lifecycle.

(** ** A failed turn *)

Section failed_turn.
Import ChatWindow.

Lemma resume_messages (k : turn) (outcome : Api.settled ChatResponse.t)
    (new_id : jsstring) (now : Z) (w : world) :
  messages (ui (handleSend_resume k outcome new_id now w))
  = messages (ui w) ++
    [match (Api.sendChatMessage outcome (page w)).1 with
     | Return response => assistantMsg new_id now response
     | Throw err => errorMsg new_id now err
     end]
  ∧ page (handleSend_resume k outcome new_id now w)
    = (Api.sendChatMessage outcome (page w)).2
  ∧ loadingStage (ui (handleSend_resume k outcome new_id now w)) = idle.
Proof.
  unfold handleSend_resume.
  by destruct (Api.sendChatMessage outcome (page w)) as [result page'].
Qed.

(** X5.  When a turn settles with status 401 the session is gone for
    good: nothing is stored under "user" any more, a navigation to the
    entry page has been started, and the page that loads there holds no
    user. *)
Theorem session_expiry_signs_out
    (k : turn) (response : Api.Response ChatResponse.t)
    (new_id : jsstring) (now : Z) (w : world) :
  Api.status response = 401 →
  let w' := handleSend_resume k (Api.Fulfilled response) new_id now w in
  let landed := ChatView.arrived_at_root (page w') in
  Browser.getItem (lit "user") (page w') = None
  ∧ Browser.navigating (page w') = true
  ∧ Home.load landed
    = (landed, {| Home.user := JSON.JNull; Home.loading := false |}).
Proof.
  intros H401 w' landed.
  destruct (resume_messages k (Api.Fulfilled response) new_id now w)
    as (_ & Hpage & _).
  fold w' in Hpage.
  rewrite (proj1 (sendChatMessage_cases response (page w)) H401) in Hpage.
  assert (Browser.getItem (lit "user") (page w') = None) as Hnone.
  { rewrite Hpage. apply lookup_delete_eq. }
  split; [exact Hnone|]. split; [by rewrite Hpage|].
  unfold Home.load. rewrite effect_no_callback by reflexivity.
  unfold Home.restore.
  change (Browser.getItem (lit "user") landed)
    with (Browser.getItem (lit "user") (page w')).
  by rewrite Hnone.
Qed.

Lemma session_expiry_signs_out_witness :
  let b := {| Browser.localStorage := {[ lit "user" := lit "{}" ]};
              Browser.search := []; Browser.navigating := false |} in
  let w := run (lit "T1") [Type_ (lit "hi"); Send (lit "m1") 0%Z] (init b) in
  let denied := {| Api.status := 401; Api.text := lit "expired";
                   Api.json := Throw Thrown |} in
  let k := {| stageTimer1 := 1%nat; stageTimer2 := 2%nat;
              request := {| Api.message := lit "hi"; Api.history := [];
                            Api.token := lit "T1"; Api.folder_id := None |} |} in
  Browser.getItem (lit "user") (page w) = Some (lit "{}")
  ∧ Browser.getItem (lit "user")
      (page (handleSend_resume k (Api.Fulfilled denied) (lit "m2") 1%Z w))
    = None.
Proof.
  intros b w denied k. split; [reflexivity|].
  exact (proj1 (session_expiry_signs_out k denied (lit "m2") 1%Z w eq_refl)).
Defined.

(** X6.  A turn that fails in any other way keeps the session: when the
    request is rejected, or answered with a status other than 401 (inside
    or outside 200..299), the resumed [handleSend] leaves the browser
    state, and with it the stored session, exactly as it was. *)
Theorem failed_turn_keeps_session
    (k : turn) (outcome : Api.settled ChatResponse.t)
    (new_id : jsstring) (now : Z) (w : world) :
  (∀ response, outcome = Api.Fulfilled response → Api.status response ≠ 401) →
  page (handleSend_resume k outcome new_id now w) = page w.
Proof.
  intros Hne.
  destruct (resume_messages k outcome new_id now w) as (_ & -> & _).
  destruct outcome as [response|e]; [|done].
  unfold Api.sendChatMessage.
  specialize (Hne response eq_refl). apply N.eqb_neq in Hne. rewrite Hne.
  by destruct (negb (Api.ok response)).
Qed.

Lemma failed_turn_keeps_session_witness :
  let b := {| Browser.localStorage := {[ lit "user" := lit "{}" ]};
              Browser.search := []; Browser.navigating := false |} in
  let w := run (lit "T1") [Type_ (lit "hi"); Send (lit "m1") 0%Z] (init b) in
  let broken := Api.Fulfilled {| Api.status := 500; Api.text := lit "boom";
                                 Api.json := Throw Thrown |} in
  let k := {| stageTimer1 := 1%nat; stageTimer2 := 2%nat;
              request := {| Api.message := lit "hi"; Api.history := [];
                            Api.token := lit "T1"; Api.folder_id := None |} |} in
  page (handleSend_resume k broken (lit "m2") 1%Z w) = b.
Proof.
  intros b w broken k.
  refine (failed_turn_keeps_session k broken (lit "m2") 1%Z w _).
  intros response [= <-]. discriminate.
Defined.

(** X7.  Every failed turn appends one assistant message marked as an
    error, without steps and token count, whose text is
    "Failed to reach the backend: " followed by the message of the error:
    the session-expired text for status 401, "API error", the status and
    the raw body for another status outside 200..299, the message of the
    thrown error for a rejected request, and "Unknown error" when what was
    thrown is not an [Error]. *)
Theorem failed_turn_message
    (k : turn) (outcome : Api.settled ChatResponse.t) (err : exn)
    (new_id : jsstring) (now : Z) (w : world) :
  (Api.sendChatMessage outcome (page w)).1 = Throw err →
  ∃ m : Message.t,
    messages (ui (handleSend_resume k outcome new_id now w))
      = messages (ui w) ++ [m]
    ∧ Message.id m = new_id
    ∧ Message.role m = assistant
    ∧ Message.isError m = Some true
    ∧ Message.steps m = None
    ∧ Message.tokens m = None
    ∧ Message.content m
      = lit "Failed to reach the backend: "
        ++ message_or (lit "Unknown error") err
    ∧ (∀ response, outcome = Api.Fulfilled response →
         Api.status response = 401 →
         Message.content m
         = lit "Failed to reach the backend: Session expired. Please log in again.")
    ∧ (∀ response, outcome = Api.Fulfilled response →
         Api.status response ≠ 401 → Api.ok response = false →
         Message.content m
         = lit "Failed to reach the backend: API error "
           ++ string_of_N (Api.status response) ++ lit ": "
           ++ Api.text response)
    ∧ (outcome = Api.Rejected Thrown →
         Message.content m = lit "Failed to reach the backend: Unknown error").
Proof.
  intros Herr.
  destruct (resume_messages k outcome new_id now w) as (Hm & _ & _).
  rewrite Herr in Hm.
  exists (errorMsg new_id now err).
  do 7 (split; [done|]). split; [|split].
  - intros response -> H401.
    rewrite (proj1 (sendChatMessage_cases response (page w)) H401) in Herr.
    injection Herr as <-. reflexivity.
  - intros response -> Hne Hok.
    rewrite (proj1 (proj2 (sendChatMessage_cases response (page w)))
               Hne Hok) in Herr.
    injection Herr as <-. reflexivity.
  - intros ->. injection Herr as <-. reflexivity.
Qed.

Lemma failed_turn_message_witness :
  let b := {| Browser.localStorage := ∅; Browser.search := [];
              Browser.navigating := false |} in
  let w := run (lit "T1") [Type_ (lit "hi"); Send (lit "m1") 0%Z] (init b) in
  let broken := Api.Fulfilled {| Api.status := 502; Api.text := lit "Bad Gateway";
                                 Api.json := Throw Thrown |} in
  let k := {| stageTimer1 := 1%nat; stageTimer2 := 2%nat;
              request := {| Api.message := lit "hi"; Api.history := [];
                            Api.token := lit "T1"; Api.folder_id := None |} |} in
  Message.content
    <$> messages (ui (handleSend_resume k broken (lit "m2") 1%Z w))
  = [lit "hi";
     lit "Failed to reach the backend: API error 502: Bad Gateway"].
Proof.
  intros b w broken k.
  destruct (failed_turn_message k broken
              (Api.ApiError 502 (lit "Bad Gateway")) (lit "m2") 1%Z w eq_refl)
    as (m & Hm & _ & _ & _ & _ & _ & Hc & _).
  rewrite Hm, fmap_app. simpl. rewrite Hc. reflexivity.
Defined.

End failed_turn.

(** ** The history of a mounted [ChatWindow] *)

Section chat_history.
Import ChatWindow ChatWindowInv ChatWindowHistory.
Variable user_token : jsstring.

Lemma step_messages_prefix (e : event) (w : world) :
  e ≠ Clear →
  messages (ui w) `prefix_of` messages (ui (step user_token e w)).
Proof.
  intros He.
  destruct e as [text|new_id now|tid|i outcome new_id now| |f| ]; simpl;
    try reflexivity.
  - unfold handleSend.
    destruct (negb _ || negb _); [reflexivity|]. simpl. by apply prefix_app_r.
  - unfold fire. by destruct (timers w !! tid).
  - destruct (awaiting w !! i) as [k|]; [|reflexivity].
    destruct (resume_messages k outcome new_id now
                {| ui := ui w; timers := timers w; next_timer := next_timer w;
                   awaiting := delete i (awaiting w); sent := sent w;
                   page := page w |}) as (-> & _).
    simpl. by apply prefix_app_r.
  - done.
Qed.

(** X8.  The history only grows: as long as [handleClear] is not called,
    the messages held at any moment are still there, in the same order and
    at the front, after any further events. *)
Theorem history_append_only (es : list event) (w : world) :
  Clear ∉ es →
  messages (ui w) `prefix_of` messages (ui (run user_token es w)).
Proof.
  revert w. induction es as [|e es IH]; intros w Hclear; simpl; [done|].
  apply not_elem_of_cons in Hclear as [He Hes].
  etrans; [by apply step_messages_prefix | by apply IH].
Qed.

Lemma other_other (r : Role) : other (other r) = r.
Proof. by destruct r. Qed.

Lemma alternates_snoc (next : Role) (l : list Message.t) (m : Message.t) :
  alternates next l = true →
  alternates next (l ++ [m])
  = bool_decide (Message.role m
                 = if Nat.even (length l) then next else other next).
Proof.
  revert next. induction l as [|a l IH]; intros next H.
  - simpl. by rewrite andb_true_r.
  - cbn [alternates] in H. apply andb_true_iff in H as [Ha H].
    change ((a :: l) ++ [m]) with (a :: (l ++ [m])).
    cbn [alternates length]. rewrite Ha, (IH _ H), other_other.
    rewrite Nat.even_succ, <- Nat.negb_even. simpl.
    by destruct (Nat.even (length l)).
Qed.

Lemma paced_step (e : event) (w : world) :
  e ≠ Clear → inv w → paced w → paced (step user_token e w).
Proof.
  intros He Hinv [Halt Hpar].
  destruct e as [text|new_id now|tid|i outcome new_id now| |f| ]; simpl;
    try done.
  - destruct (decide (trim (input (ui w)) = [])) as [Hblank|Htext].
    { rewrite handleSend_rejected; [done|]. left. by apply trim_nil_iff. }
    destruct (decide (loadingStage (ui w) = idle)) as [Hidle|Hbusy].
    2: { rewrite handleSend_rejected; [done|]. by right. }
    rewrite (handleSend_accepted _ _ _ _ Htext Hidle).
    rewrite bool_decide_eq_true_2 in Hpar by done.
    split; simpl.
    + rewrite (alternates_snoc _ _ _ Halt), Hpar. done.
    + rewrite length_app. simpl. rewrite Nat.add_1_r, Nat.even_succ.
      rewrite <- Nat.negb_even, Hpar. done.
  - unfold fire. destruct (timers w !! tid) as [stage|] eqn:Htid; [|done].
    assert (stage ≠ idle) as Hstage by by eapply inv_stage.
    assert (loadingStage (ui w) ≠ idle) as Hbusy.
    { intros Hidle. destruct (inv_idle w Hinv Hidle) as [_ Ht].
      by rewrite Ht, lookup_empty in Htid. }
    split; simpl; [done|].
    rewrite Hpar. by rewrite !bool_decide_eq_false_2.
  - destruct (awaiting w !! i) as [k|] eqn:Hk; [|done].
    destruct (inv_busy_of_awaiting w i k Hinv Hk) as (Ha & -> & _).
    assert (loadingStage (ui w) ≠ idle) as Hbusy.
    { intros Hidle. destruct (inv_idle w Hinv Hidle) as [Hnil _]. congruence. }
    rewrite bool_decide_eq_false_2 in Hpar by done.
    unfold handleSend_resume. simpl.
    destruct (Api.sendChatMessage outcome (page w)) as [result page'].
    split; simpl.
    + rewrite (alternates_snoc _ _ _ Halt), Hpar.
      by destruct result.
    + rewrite length_app. simpl. rewrite Nat.add_1_r, Nat.even_succ.
      rewrite <- Nat.negb_even, Hpar. done.
Qed.

Lemma paced_run (es : list event) (w : world) :
  Clear ∉ es → inv w → paced w →
  inv (run user_token es w) ∧ paced (run user_token es w).
Proof.
  revert w. induction es as [|e es IH]; intros w Hclear Hinv Hp; simpl; [done|].
  apply not_elem_of_cons in Hclear as [He Hes].
  apply IH; [done | by apply inv_step | by apply paced_step].
Qed.

(** X9.  As long as [handleClear] is not called, the history of a mounted
    component is a strict exchange: the roles alternate, beginning with a
    user message; the number of messages is even exactly when the stage is
    idle; so while a turn is in flight the last message is the user's and
    the loading indicator is rendered below it. *)
Theorem history_alternates (b : Browser.t) (es : list event) :
  Clear ∉ es →
  let w := run user_token es (init b) in
  alternates user (messages (ui w)) = true
  ∧ (loadingStage (ui w) = idle ↔ Nat.even (length (messages (ui w))) = true)
  ∧ (loadingStage (ui w) ≠ idle →
     ChatView.indicator_rendered (ui w) = true
     ∧ ∃ m, last (messages (ui w)) = Some m ∧ Message.role m = user).
Proof.
  intros Hclear w.
  destruct (paced_run es (init b) Hclear (inv_init b)) as [Hinv [Halt Hpar]];
    [by split|].
  fold w in Hinv, Halt, Hpar.
  split; [exact Halt|]. split.
  - rewrite Hpar. by rewrite bool_decide_eq_true.
  - intros Hbusy. rewrite bool_decide_eq_false_2 in Hpar by done.
    unfold ChatView.indicator_rendered, ChatView.isLoading.
    rewrite (bool_decide_eq_false_2 (loadingStage _ = idle)) by done.
    destruct (messages (ui w)) as [|m0 l] eqn:Hm using rev_ind;
      [discriminate|]. clear IHl.
    split.
    + rewrite bool_decide_eq_false_2; [done|].
      rewrite length_app. simpl. lia.
    + exists m0. split; [apply last_snoc|].
      assert (alternates user l = true) as Hl.
      { clear -Halt. revert Halt. generalize user.
        induction l as [|a l IH]; intros r; [done|].
        change ((a :: l) ++ [m0]) with (a :: (l ++ [m0])).
        cbn [alternates]. intros H. apply andb_true_iff in H as [-> H].
        simpl. by apply (IH (other r)). }
      rewrite (alternates_snoc _ _ _ Hl) in Halt.
      apply bool_decide_eq_true in Halt.
      rewrite length_app in Hpar. simpl in Hpar.
      rewrite Nat.add_1_r, Nat.even_succ, <- Nat.negb_even in Hpar.
      apply negb_false_iff in Hpar. by rewrite Hpar in Halt.
Qed.

End chat_history.

Section chat_history_witness.
Import ChatWindow ChatWindowHistory.

Lemma history_append_only_witness :
  let b := {| Browser.localStorage := ∅; Browser.search := [];
              Browser.navigating := false |} in
  let w := run (lit "T1") [Type_ (lit "one"); Send (lit "m1") 0%Z] (init b) in
  let es := [Timeout 1%nat;
             Settle 0%nat (Api.Rejected Thrown) (lit "m2") 1%Z;
             Type_ (lit "two"); Send (lit "m3") 2%Z] in
  length (messages (ui w)) = 1%nat
  ∧ length (messages (ui (run (lit "T1") es w))) = 3%nat
  ∧ messages (ui w) `prefix_of` messages (ui (run (lit "T1") es w)).
Proof.
  intros b w es. split; [reflexivity|]. split; [reflexivity|].
  apply (history_append_only (lit "T1") es w).
  unfold es. rewrite !not_elem_of_cons. repeat split; try discriminate.
  apply not_elem_of_nil.
Defined.

Lemma history_alternates_witness :
  let b := {| Browser.localStorage := ∅; Browser.search := [];
              Browser.navigating := false |} in
  let es := [Type_ (lit "one"); Send (lit "m1") 0%Z;
             Settle 0%nat (Api.Rejected Thrown) (lit "m2") 1%Z;
             Type_ (lit "two"); Send (lit "m3") 2%Z] in
  Message.role <$> messages (ui (run (lit "T1") es (init b)))
  = [user; assistant; user]
  ∧ alternates user (messages (ui (run (lit "T1") es (init b)))) = true.
Proof.
  intros b es. split; [reflexivity|].
  refine (proj1 (history_alternates (lit "T1") b es _)).
  unfold es. rewrite !not_elem_of_cons. repeat split; try discriminate.
  apply not_elem_of_nil.
Defined.

End chat_history_witness.

(** ** Clearing, the send button and the folder of a request *)

Section chat_controls.
Import ChatWindow ChatWindowInv.

(** X10.  [handleClear] does not end a turn.  Called while a call of
    [handleSend] waits, it empties the history and the input but leaves
    the stage, the timers, the waiting call and the folder selection as
    they are; when that call settles afterwards the stage becomes idle and
    the history consists of the reply alone. *)
Theorem clear_keeps_turn
    (user_token : jsstring) (w : world) (i : nat) (k : turn)
    (outcome : Api.settled ChatResponse.t) (new_id : jsstring) (now : Z) :
  awaiting w !! i = Some k →
  let w1 := step user_token Clear w in
  let w2 := step user_token (Settle i outcome new_id now) w1 in
  messages (ui w1) = []
  ∧ input (ui w1) = []
  ∧ loadingStage (ui w1) = loadingStage (ui w)
  ∧ selectedFolderId (ui w1) = selectedFolderId (ui w)
  ∧ timers w1 = timers w
  ∧ awaiting w1 = awaiting w
  ∧ sent w1 = sent w
  ∧ loadingStage (ui w2) = idle
  ∧ ∃ m, messages (ui w2) = [m] ∧ Message.role m = assistant
         ∧ Message.id m = new_id.
Proof.
  intros Hk w1 w2. do 7 (split; [reflexivity|]).
  unfold w2. simpl. rewrite Hk.
  match goal with
  | |- context [handleSend_resume k outcome new_id now ?v] =>
      destruct (resume_messages k outcome new_id now v) as (Hm & _ & Hs)
  end.
  split; [exact Hs|]. rewrite Hm. simpl.
  eexists. split; [reflexivity|].
  by destruct (Api.sendChatMessage outcome (page w)).1.
Qed.

Lemma clear_keeps_turn_witness :
  let b := {| Browser.localStorage := ∅; Browser.search := [];
              Browser.navigating := false |} in
  let w := run (lit "T1") [Type_ (lit "hi"); Send (lit "m1") 0%Z] (init b) in
  let k := {| stageTimer1 := 1%nat; stageTimer2 := 2%nat;
              request := {| Api.message := lit "hi"; Api.history := [];
                            Api.token := lit "T1"; Api.folder_id := None |} |} in
  loadingStage (ui (step (lit "T1") Clear w)) = searching
  ∧ Message.role
      <$> messages (ui (run (lit "T1")
                          [Clear; Settle 0%nat (Api.Rejected Thrown) (lit "m2") 1%Z]
                          w))
    = [assistant].
Proof.
  intros b w k.
  destruct (clear_keeps_turn (lit "T1") w 0%nat k (Api.Rejected Thrown)
              (lit "m2") 1%Z eq_refl)
    as (_ & _ & Hstage & _ & _ & _ & _ & _ & m & Hm & Hrole & _).
  split; [exact Hstage|].
  change (run (lit "T1") [Clear; Settle 0%nat (Api.Rejected Thrown) (lit "m2") 1%Z] w)
    with (step (lit "T1") (Settle 0%nat (Api.Rejected Thrown) (lit "m2") 1%Z)
            (step (lit "T1") Clear w)).
  rewrite Hm. simpl. by rewrite Hrole.
Defined.

(** X11.  The send button is disabled exactly when [handleSend] would do
    nothing: when it is disabled a call of [handleSend] (the Enter key
    calls it whatever the button shows) leaves the state as it is, and
    when it is enabled the call appends the user's message, empties the
    input, moves the stage to searching and hands one request to
    [fetch]. *)
Theorem send_button_matches_handleSend
    (user_token new_id : jsstring) (now : Z) (w : world) :
  (ChatView.send_disabled (ui w) = true →
     handleSend user_token new_id now w = w)
  ∧ (ChatView.send_disabled (ui w) = false →
     length (messages (ui (handleSend user_token new_id now w)))
       = S (length (messages (ui w)))
     ∧ input (ui (handleSend user_token new_id now w)) = []
     ∧ loadingStage (ui (handleSend user_token new_id now w)) = searching
     ∧ length (sent (handleSend user_token new_id now w))
       = S (length (sent w))
     ∧ ChatView.send_disabled (ui (handleSend user_token new_id now w)) = true).
Proof.
  unfold ChatView.send_disabled, ChatView.isLoading. split.
  - intros H. apply handleSend_rejected.
    apply orb_true_iff in H as [H|H].
    + right. apply negb_true_iff in H. by apply bool_decide_eq_false in H.
    + left. apply negb_true_iff, truthy_false_iff in H.
      by apply trim_nil_iff.
  - intros H. apply orb_false_iff in H as [Hs Ht].
    apply negb_false_iff in Hs, Ht.
    apply bool_decide_eq_true in Hs. apply truthy_true_iff in Ht.
    rewrite (handleSend_accepted _ _ _ _ Ht Hs). simpl.
    rewrite !length_app. simpl. repeat split; lia.
Qed.

Lemma send_button_matches_handleSend_witness :
  let b := {| Browser.localStorage := ∅; Browser.search := [];
              Browser.navigating := false |} in
  let blank := run (lit "T1") [Type_ (lit "   ")] (init b) in
  let ready := run (lit "T1") [Type_ (lit " hi ")] (init b) in
  handleSend (lit "T1") (lit "m1") 0%Z blank = blank
  ∧ loadingStage (ui (handleSend (lit "T1") (lit "m1") 0%Z ready)) = searching.
Proof.
  intros b blank ready. split.
  - exact (proj1 (send_button_matches_handleSend (lit "T1") (lit "m1") 0%Z
                    blank) eq_refl).
  - exact (proj1 (proj2 (proj2
             (proj2 (send_button_matches_handleSend (lit "T1") (lit "m1") 0%Z
                       ready) eq_refl)))).
Defined.

(** X12.  A folder choice takes effect on the next turn and on no other:
    making a choice sends nothing and does not touch a waiting call; the
    request of the next accepted [handleSend] carries the token of the
    signed-in user and the chosen folder, and carries no folder when the
    choice is the whole drive (null) or the empty string. *)
Theorem request_carries_selection
    (user_token new_id : jsstring) (now : Z) (w : world)
    (choice : option jsstring) :
  trim (input (ui w)) ≠ [] →
  loadingStage (ui w) = idle →
  let w1 := step user_token (SelectFolder choice) w in
  let w2 := step user_token (Send new_id now) w1 in
  sent w1 = sent w
  ∧ awaiting w1 = awaiting w
  ∧ ∃ request,
      sent w2 = sent w ++ [request]
      ∧ Api.token request = user_token
      ∧ (∀ folderId, choice = Some folderId → folderId ≠ [] →
           Api.folder_id request = Some folderId)
      ∧ (choice = None ∨ choice = Some [] → Api.folder_id request = None).
Proof.
  intros Htext Hidle w1 w2. split; [reflexivity|]. split; [reflexivity|].
  unfold w2. simpl.
  rewrite handleSend_accepted by done. simpl.
  eexists. split; [reflexivity|]. split; [reflexivity|]. simpl. split.
  - intros folderId -> Hne. simpl. apply truthy_true_iff in Hne.
    by rewrite Hne.
  - by intros [-> | ->].
Qed.

Lemma request_carries_selection_witness :
  let b := {| Browser.localStorage := ∅; Browser.search := [];
              Browser.navigating := false |} in
  let w := run (lit "T1") [Type_ (lit "hi")] (init b) in
  Api.folder_id
    <$> sent (run (lit "T1") [SelectFolder (Some (lit "f1")); Send (lit "m1") 0%Z] w)
  = [Some (lit "f1")].
Proof.
  intros b w.
  destruct (request_carries_selection (lit "T1") (lit "m1") 0%Z w
              (Some (lit "f1")) ltac:(discriminate) eq_refl)
    as (_ & _ & request & Hsent & _ & Hsome & _).
  change (run (lit "T1") [SelectFolder (Some (lit "f1")); Send (lit "m1") 0%Z] w)
    with (step (lit "T1") (Send (lit "m1") 0%Z)
            (step (lit "T1") (SelectFolder (Some (lit "f1"))) w)).
  rewrite Hsent. simpl.
  by rewrite (Hsome (lit "f1") eq_refl ltac:(discriminate)).
Defined.

End chat_controls.

(** ** How the history is rendered, and the timers *)

Section chat_rendering.
Import ChatWindow ChatWindowInv ChatWindowHistory.
Variable user_token : jsstring.

Lemma well_formed_step (e : event) (w : world) :
  Forall well_formed (messages (ui w)) →
  Forall well_formed (messages (ui (step user_token e w))).
Proof.
  intros H.
  destruct e as [text|new_id now|tid|i outcome new_id now| |f| ]; simpl;
    try done.
  - unfold handleSend. destruct (negb _ || negb _); [done|]. simpl.
    apply Forall_app. split; [done|]. by repeat constructor.
  - unfold fire. by destruct (timers w !! tid).
  - destruct (awaiting w !! i) as [k|]; [|done].
    match goal with
    | |- context [handleSend_resume k outcome new_id now ?v] =>
        destruct (resume_messages k outcome new_id now v) as (-> & _)
    end.
    simpl. apply Forall_app. split; [done|]. constructor; [|done].
    destruct (Api.sendChatMessage outcome (page w)).1 as [response|err];
      unfold well_formed; simpl; by eexists.
Qed.

Lemma well_formed_run (es : list event) (w : world) :
  Forall well_formed (messages (ui w)) →
  Forall well_formed (messages (ui (run user_token es w))).
Proof.
  revert w. induction es as [|e es IH]; intros w H; simpl; [done|].
  by apply IH, well_formed_step.
Qed.

(** X13.  What [ChatMessage] makes of the messages a mounted [ChatWindow]
    can hold: a user message is always shown as plain text, without
    thinking panel and without token count; an assistant message is shown
    as an error exactly when it is marked as one and through the markdown
    renderer exactly when it is marked as none. *)
Theorem history_rendering (b : Browser.t) (es : list event) (m : Message.t) :
  m ∈ messages (ui (run user_token es (init b))) →
  (Message.role m = user →
     ChatMessage.body m = ChatMessage.PlainText
     ∧ ChatMessage.showsThinkingPanel m = false
     ∧ ChatMessage.showsTokens m = false)
  ∧ (Message.role m = assistant →
     (ChatMessage.body m = ChatMessage.ErrorText ↔ Message.isError m = Some true)
     ∧ (ChatMessage.body m = ChatMessage.Markdown ↔ Message.isError m = Some false)).
Proof.
  intros Hm.
  pose proof (well_formed_run es (init b) (List.Forall_nil _)) as Hall.
  rewrite Forall_forall in Hall. specialize (Hall m Hm).
  unfold well_formed in Hall.
  unfold ChatMessage.body, ChatMessage.showsThinkingPanel,
    ChatMessage.showsTokens, ChatMessage.isUser.
  split.
  - intros Hrole. rewrite Hrole in *. destruct Hall as (-> & -> & ->). done.
  - intros Hrole. rewrite Hrole in *. destruct Hall as [e He].
    rewrite He. simpl. split; destruct e; split; congruence.
Qed.

Lemma staged_step (e : event) (w : world) :
  staged w → staged (step user_token e w).
Proof.
  intros H.
  destruct e as [text|new_id now|x|i outcome new_id now| |f| ]; simpl;
    try done.
  - unfold handleSend. destruct (negb _ || negb _); [done|].
    intros tid stage. simpl. rewrite !lookup_insert_Some.
    intros [[_ <-]|[_ [[_ <-]|[_ Ht]]]]; [by right | by left | by eapply H].
  - unfold fire. destruct (timers w !! x); [|done].
    intros tid stage. simpl. rewrite lookup_delete_Some.
    intros [_ Ht]. by eapply H.
  - destruct (awaiting w !! i) as [k|]; [|done].
    unfold handleSend_resume. simpl.
    destruct (Api.sendChatMessage outcome (page w)) as [result page'].
    intros tid stage. simpl. rewrite !lookup_delete_Some.
    intros (_ & _ & Ht). by eapply H.
Qed.

Lemma staged_run (es : list event) (w : world) :
  staged w → staged (run user_token es w).
Proof.
  revert w. induction es as [|e es IH]; intros w H; simpl; [done|].
  by apply IH, staged_step.
Qed.

Lemma owned_size (k : turn) (w : world) :
  owns k w → (size (timers w) ≤ 2)%nat.
Proof.
  intros Hown.
  assert (dom (timers w) ⊆ ({[stageTimer1 k]} ∪ {[stageTimer2 k]} : gset nat))
    as Hsub.
  { intros tid Htid. apply elem_of_dom in Htid.
    destruct (Hown tid Htid) as [-> | ->]; set_solver. }
  rewrite <- size_dom. etrans; [by apply subseteq_size|].
  rewrite size_union_alt, size_singleton.
  assert ((({[stageTimer2 k]} : gset nat) ∖ {[stageTimer1 k]})
          ⊆ {[stageTimer2 k]}) as Hdiff by apply subseteq_difference_l, reflexivity.
  apply subseteq_size in Hdiff. rewrite size_singleton in Hdiff. lia.
Qed.

(** X14.  No stage timer leaks.  In every state a mounted component can
    reach, no timer is scheduled while the stage is idle, at most two are
    scheduled at any time, each of them sets the stage to reading or to
    thinking (never to idle), and each belongs to the one call of
    [handleSend] that is waiting. *)
Theorem no_timer_leak (b : Browser.t) (es : list event) :
  let w := run user_token es (init b) in
  (loadingStage (ui w) = idle → timers w = ∅)
  ∧ (size (timers w) ≤ 2)%nat
  ∧ (∀ tid stage, timers w !! tid = Some stage →
       (stage = reading ∨ stage = thinking)
       ∧ (tid < next_timer w)%nat
       ∧ ∃ k, awaiting w = [k]
              ∧ (tid = stageTimer1 k ∨ tid = stageTimer2 k)).
Proof.
  intros w.
  pose proof (inv_reachable user_token b es) as Hinv. fold w in Hinv.
  assert (staged w) as Hst.
  { apply staged_run. intros tid stage H. simpl in H.
    by rewrite lookup_empty in H. }
  split; [|split].
  - intros Hidle. by destruct (inv_idle w Hinv Hidle).
  - destruct (decide (loadingStage (ui w) = idle)) as [Hidle|Hbusy].
    + destruct (inv_idle w Hinv Hidle) as [_ ->]. rewrite map_size_empty. lia.
    + destruct (inv_busy w Hinv Hbusy) as (k & _ & Hown & _).
      by eapply owned_size.
  - intros tid stage Htid. split; [by eapply Hst|].
    assert (loadingStage (ui w) ≠ idle) as Hbusy.
    { intros Hidle. destruct (inv_idle w Hinv Hidle) as [_ Ht].
      by rewrite Ht, lookup_empty in Htid. }
    destruct (inv_busy w Hinv Hbusy) as (k & Ha & Hown & H1 & H2).
    assert (tid = stageTimer1 k ∨ tid = stageTimer2 k) as Hk
      by (apply Hown; by eexists).
    split; [destruct Hk as [-> | ->]; done|]. by exists k.
Qed.

End chat_rendering.

Section chat_rendering_witness.
Import ChatWindow.

(** A user message, the reply to it, and the error that ends a second
    turn. *)
Lemma history_rendering_witness :
  let b := {| Browser.localStorage := ∅; Browser.search := [];
              Browser.navigating := false |} in
  let data := {| ChatResponse.answer := lit "Found 3 PDFs";
                 ChatResponse.intermediate_steps := [];
                 ChatResponse.tokens := 42%Z;
                 ChatResponse.error := None |} in
  let fine := Api.Fulfilled {| Api.status := 200; Api.text := lit "{...}";
                               Api.json := Return data |} in
  let es := [Type_ (lit "one"); Send (lit "m1") 7%Z;
             Settle 0%nat fine (lit "m2") 8%Z;
             Type_ (lit "two"); Send (lit "m3") 9%Z;
             Settle 0%nat (Api.Rejected Thrown) (lit "m4") 10%Z] in
  let asked := {| Message.id := lit "m1"; Message.role := user;
                  Message.content := lit "one"; Message.timestamp := 7%Z;
                  Message.steps := None; Message.isError := None;
                  Message.tokens := None |} in
  let reply := assistantMsg (lit "m2") 8%Z data in
  let failure := errorMsg (lit "m4") 10%Z Thrown in
  ChatMessage.body <$> messages (ui (run (lit "T1") es (init b)))
  = [ChatMessage.PlainText; ChatMessage.Markdown;
     ChatMessage.PlainText; ChatMessage.ErrorText]
  ∧ ChatMessage.body asked = ChatMessage.PlainText
  ∧ ChatMessage.showsTokens asked = false
  ∧ ChatMessage.body reply = ChatMessage.Markdown
  ∧ ChatMessage.body failure = ChatMessage.ErrorText.
Proof.
  intros b data fine es asked reply failure. split; [reflexivity|].
  assert (asked ∈ messages (ui (run (lit "T1") es (init b)))) as Hasked
    by (apply list_elem_of_In; left; reflexivity).
  assert (reply ∈ messages (ui (run (lit "T1") es (init b)))) as Hreply
    by (apply list_elem_of_In; right; left; reflexivity).
  assert (failure ∈ messages (ui (run (lit "T1") es (init b)))) as Hfailure
    by (apply list_elem_of_In; do 3 right; left; reflexivity).
  destruct (proj1 (history_rendering (lit "T1") b es asked Hasked) eq_refl)
    as (Hbody & _ & Htokens).
  split; [exact Hbody|]. split; [exact Htokens|]. split.
  - exact (proj2 (proj2 (proj2 (history_rendering (lit "T1") b es reply Hreply)
                           eq_refl)) eq_refl).
  - exact (proj2 (proj1 (proj2 (history_rendering (lit "T1") b es failure
                                  Hfailure) eq_refl)) eq_refl).
Defined.

Lemma no_timer_leak_witness :
  let b := {| Browser.localStorage := ∅; Browser.search := [];
              Browser.navigating := false |} in
  let es := [Type_ (lit "one"); Send (lit "m1") 7%Z; Timeout 2%nat] in
  timers (run (lit "T1") es (init b)) !! 1%nat = Some reading
  ∧ (1 < next_timer (run (lit "T1") es (init b)))%nat.
Proof.
  intros b es. split; [reflexivity|].
  exact (proj1 (proj2 (proj2 (proj2 (no_timer_leak (lit "T1") b es))
                         1%nat reading eq_refl))).
Defined.

End chat_rendering_witness.

(** ** [components/FolderSelector.tsx]: loading and caching *)

Section folder_cache.
Import FolderSelector.
Variable token : jsstring.

Lemma commit_cases (before : state) (w : world) :
  commit token before w = w
  ∨ (isOpen (ui w) = true ∧ folders (ui w) = []
     ∧ commit token before w
       = {| ui := {| folders := folders (ui w); isOpen := isOpen (ui w);
                     search := search (ui w); loading := true |};
            pending := S (pending w);
            calls := calls w ++ [token] |}).
Proof.
  unfold commit. case_decide; [by left|]. unfold effect.
  destruct (isOpen (ui w)) eqn:Ho; [|by left].
  destruct (folders (ui w)) as [|f fs] eqn:Hf; [|by left].
  right. by repeat split.
Qed.

Lemma quiet_step (e : event) (w : world) :
  (pending w = 0%nat → loading (ui w) = false) →
  (pending w ≤ length (calls w))%nat →
  (pending (step token e w) = 0%nat → loading (ui (step token e w)) = false)
  ∧ (pending (step token e w) ≤ length (calls (step token e w)))%nat.
Proof.
  intros Hq Hle. unfold step.
  assert ((pending (handle e w) = 0%nat → loading (ui (handle e w)) = false)
          ∧ (pending (handle e w) ≤ length (calls (handle e w)))%nat)
    as [Hq' Hle'].
  { destruct e as [| |text|outcome]; simpl; try done.
    destruct (pending w) as [|n] eqn:Hp.
    - split; [intros _; by apply Hq | lia].
    - simpl. split; [done|lia]. }
  destruct (commit_cases (ui w) (handle e w)) as [-> | (_ & _ & ->)];
    [done|].
  simpl. rewrite length_app. simpl. split; [done|lia].
Qed.

(** X15.  The selector does not get stuck on "Loading folders...": in
    every state it can reach, [loading] is false whenever no [fetchFolders]
    call is pending, also after calls that threw; and no more calls are
    pending than were made. *)
Theorem no_stuck_loading (es : list event) :
  let w := run token es init in
  (pending w = 0%nat → loading (ui w) = false)
  ∧ (pending w ≤ length (calls w))%nat.
Proof.
  intros w. unfold w.
  assert (∀ v, (pending v = 0%nat → loading (ui v) = false) →
               (pending v ≤ length (calls v))%nat →
               (pending (run token es v) = 0%nat →
                loading (ui (run token es v)) = false)
               ∧ (pending (run token es v) ≤ length (calls (run token es v)))%nat)
    as Hrun.
  { induction es as [|e es' IH]; intros v Hq Hle; simpl; [done|].
    destruct (quiet_step e v Hq Hle). by apply IH. }
  apply Hrun; simpl; [done|lia].
Qed.

Lemma cached_step (e : event) (w : world) :
  pending w = 0%nat → folders (ui w) ≠ [] →
  calls (step token e w) = calls w
  ∧ folders (ui (step token e w)) = folders (ui w)
  ∧ pending (step token e w) = 0%nat.
Proof.
  intros Hp Hf. unfold step.
  assert (calls (handle e w) = calls w
          ∧ folders (ui (handle e w)) = folders (ui w)
          ∧ pending (handle e w) = 0%nat) as (Hc & Hfs & Hp').
  { destruct e as [| |text|outcome]; simpl; try done. by rewrite Hp. }
  destruct (commit_cases (ui w) (handle e w)) as [-> | (_ & Hnil & _)];
    [done|].
  congruence.
Qed.

(** X16.  A loaded catalog is kept: once folders are held and no call is
    pending, no event whatever (opening, closing, searching) makes another
    [fetchFolders] call or changes the folders. *)
Theorem loaded_catalog_is_cached (es : list event) (w : world) :
  pending w = 0%nat → folders (ui w) ≠ [] →
  calls (run token es w) = calls w
  ∧ folders (ui (run token es w)) = folders (ui w)
  ∧ pending (run token es w) = 0%nat.
Proof.
  revert w. induction es as [|e es' IH]; intros w Hp Hf; simpl; [done|].
  destruct (cached_step e w Hp Hf) as (Hc & Hfs & Hp').
  destruct (IH (step token e w)) as (Hc2 & Hfs2 & Hp2);
    [done | by rewrite Hfs |].
  split; [congruence|]. split; [congruence | done].
Qed.

End folder_cache.

Section folder_cache_witness.
Import FolderSelector.

Lemma no_stuck_loading_witness :
  let es := [Toggle; Settled (Api.Rejected (TypeError (lit "Failed to fetch")))] in
  pending (run (lit "T1") es init) = 0%nat
  ∧ loading (ui (run (lit "T1") es init)) = false.
Proof.
  intros es. split; [reflexivity|].
  exact (proj1 (no_stuck_loading (lit "T1") es) eq_refl).
Defined.

Lemma loaded_catalog_is_cached_witness :
  let docs := {| Folder.id := lit "1"; Folder.name := lit "Docs" |} in
  let body := {| Api.status := 200; Api.text := lit "{...}";
                 Api.json := Return {| Api.folders := Some [docs] |} |} in
  let w := run (lit "T1") [Toggle; Settled (Api.Fulfilled body)] init in
  folders (ui w) = [docs]
  ∧ calls (run (lit "T1") [Close; Toggle; Search (lit "d"); Toggle; Toggle] w)
    = [lit "T1"].
Proof.
  intros docs body w. split; [reflexivity|].
  exact (proj1 (loaded_catalog_is_cached (lit "T1")
                  [Close; Toggle; Search (lit "d"); Toggle; Toggle] w
                  eq_refl ltac:(discriminate))).
Defined.

End folder_cache_witness.

(** ** [components/FolderSelector.tsx]: the list and the label *)

Section folder_list.
Import FolderList.

Lemma starts_with_spec (p s : jsstring) :
  starts_with p s = true ↔ ∃ post, s = p ++ post.
Proof.
  revert s. induction p as [|a p IH]; intros s; simpl.
  - split; [by exists s | done].
  - destruct s as [|b s]; [split; [done | by intros [post [=]]]|].
    rewrite andb_true_iff, N.eqb_eq, IH. split.
    + intros [-> [post ->]]. by exists post.
    + intros [post [= -> ->]]. split; [done | by exists post].
Qed.

Lemma includes_spec (s sub : jsstring) :
  includes s sub = true ↔ ∃ pre post, s = pre ++ sub ++ post.
Proof.
  induction s as [|c s IH]; cbn [includes]; rewrite orb_true_iff.
  - rewrite starts_with_spec. split.
    + intros [[post ->] | [=]]. by exists [], post.
    + intros (pre & post & H). left.
      destruct pre; [by exists post | done].
  - rewrite starts_with_spec, IH. split.
    + intros [[post ->] | (pre & post & ->)];
        [by exists [], post | by exists (c :: pre), post].
    + intros ([|c' pre] & post & H).
      * left. by exists post.
      * injection H as <- ->. right. by exists pre, post.
Qed.

Variable toLowerCase : jsstring → jsstring.

(** X17.  What the search box of the folder selector lists: exactly the
    folders whose name, in lower case, contains the search text, in lower
    case, somewhere; they keep the order of the catalog; and when the
    search text is empty in lower case every folder is listed. *)
Theorem filteredFolders_characterised
    (folders : list Folder.t) (search : jsstring) :
  (∀ f, f ∈ filteredFolders toLowerCase folders search
        ↔ f ∈ folders
          ∧ ∃ pre post,
              toLowerCase (Folder.name f) = pre ++ toLowerCase search ++ post)
  ∧ filteredFolders toLowerCase folders search `sublist_of` folders
  ∧ (toLowerCase search = [] →
     filteredFolders toLowerCase folders search = folders).
Proof.
  unfold filteredFolders. split; [|split].
  - intros f. rewrite !list_elem_of_In, filter_In, includes_spec. done.
  - induction folders as [|f fs IH]; simpl; [done|].
    destruct (includes _ _); [by apply sublist_skip | by apply sublist_cons].
  - intros ->. induction folders as [|f fs IH]; simpl; [done|].
    assert (includes (toLowerCase (Folder.name f)) [] = true) as ->
      by (apply includes_spec; by exists [], (toLowerCase (Folder.name f))).
    by rewrite IH.
Qed.

End folder_list.

Section folder_label.
Import FolderList.

(** The search for "eng" over Engineering and Finance. *)
Lemma filteredFolders_characterised_witness :
  let engineering := {| Folder.id := lit "1"; Folder.name := lit "Engineering" |} in
  let finance := {| Folder.id := lit "2"; Folder.name := lit "Finance" |} in
  filteredFolders ascii_toLowerCase [engineering; finance] (lit "eng")
  = [engineering]
  ∧ filteredFolders ascii_toLowerCase [engineering; finance] []
    = [engineering; finance].
Proof.
  intros engineering finance. split; [reflexivity|].
  exact (proj2 (proj2 (filteredFolders_characterised ascii_toLowerCase
                         [engineering; finance] [])) eq_refl).
Defined.

Lemma find_first (folders pre post : list Folder.t) (f : Folder.t)
    (folderId : jsstring) :
  folders = pre ++ f :: post →
  Folder.id f = folderId →
  (∀ g, g ∈ pre → Folder.id g ≠ folderId) →
  selectedFolder folders (Some folderId) = Some f.
Proof.
  intros -> Hf Hpre. unfold selectedFolder.
  induction pre as [|g pre IH]; simpl.
  - by rewrite bool_decide_eq_true_2 by congruence.
  - rewrite bool_decide_eq_false_2.
    + apply IH. intros g' Hg'. apply Hpre. by right.
    + intros [= Hg]. apply (Hpre g); [by left | done].
Qed.

Lemma find_none (folders : list Folder.t) (folderId : jsstring) :
  (∀ g, g ∈ folders → Folder.id g ≠ folderId) →
  selectedFolder folders (Some folderId) = None.
Proof.
  intros Hall. unfold selectedFolder.
  induction folders as [|g fs IH]; simpl; [done|].
  rewrite bool_decide_eq_false_2.
  - apply IH. intros g' Hg'. apply Hall. by right.
  - intros [= Hg]. apply (Hall g); [by left | done].
Qed.

(** X18.  The text of the selector's button.  With no selection (null or
    the empty string) it reads "Whole Drive".  With a selection it reads
    the name of the first folder of the catalog that has the selected id,
    and "Selected Folder" when the catalog holds no folder with that id
    (it is not loaded yet, or its loading failed) or that folder's name is
    empty. *)
Theorem label_cases (folders : list Folder.t) (selectedId : option jsstring) :
  (selectedId = None ∨ selectedId = Some [] →
     label folders selectedId = lit "Whole Drive")
  ∧ (∀ folderId, selectedId = Some folderId → folderId ≠ [] →
       (∀ g, g ∈ folders → Folder.id g ≠ folderId) →
       label folders selectedId = lit "Selected Folder")
  ∧ (∀ folderId pre f post,
       selectedId = Some folderId → folderId ≠ [] →
       folders = pre ++ f :: post →
       Folder.id f = folderId →
       (∀ g, g ∈ pre → Folder.id g ≠ folderId) →
       label folders selectedId
       = if decide (Folder.name f = []) then lit "Selected Folder"
         else Folder.name f).
Proof.
  unfold label. split; [|split].
  - by intros [-> | ->].
  - intros folderId -> Hne Hall. simpl.
    apply truthy_true_iff in Hne. rewrite Hne.
    by rewrite find_none.
  - intros folderId pre f post -> Hne Hfs Hf Hpre. simpl.
    apply truthy_true_iff in Hne. rewrite Hne.
    rewrite (find_first folders pre post f folderId Hfs Hf Hpre). simpl.
    case_decide as Hname.
    + by rewrite Hname.
    + apply truthy_true_iff in Hname. by rewrite Hname.
Qed.

Lemma label_cases_witness :
  let docs := {| Folder.id := lit "1"; Folder.name := lit "Docs" |} in
  label [] (Some (lit "1")) = lit "Selected Folder"
  ∧ label [docs] (Some (lit "1")) = lit "Docs"
  ∧ label [docs] None = lit "Whole Drive".
Proof.
  intros docs. split; [|split].
  - refine (proj1 (proj2 (label_cases [] (Some (lit "1"))))
              (lit "1") eq_refl ltac:(discriminate) _).
    intros g Hg. by apply elem_of_nil in Hg.
  - refine (proj2 (proj2 (label_cases [docs] (Some (lit "1"))))
              (lit "1") [] docs [] eq_refl ltac:(discriminate)
              eq_refl eq_refl _).
    intros g Hg. by apply elem_of_nil in Hg.
  - exact (proj1 (label_cases [docs] None) (or_introl eq_refl)).
Defined.

End folder_label.

(** ** [components/ThinkingPanel.tsx] and [fetchUserInfo] *)

Section truncation.
Import ThinkingPanel.

(** X19.  [truncate] never shows more than [max] code units of the text
    plus the ellipsis: a text of at most [max] code units is returned as it
    is, a longer one is cut to its first [max] code units followed by the
    one ellipsis; either way the first [max] code units are those of the
    text, and truncating the result again changes nothing. *)
Theorem truncate_bounds (str : jsstring) (max : nat) :
  (length (truncate str max) ≤ S max)%nat
  ∧ ((length str ≤ max)%nat → truncate str max = str)
  ∧ ((max < length str)%nat →
       truncate str max = take max str ++ [0x2026]
       ∧ length (truncate str max) = S max)
  ∧ take max (truncate str max) = take max str
  ∧ truncate (truncate str max) max = truncate str max.
Proof.
  unfold truncate.
  destruct (Nat.ltb_spec max (length str)) as [Hlong|Hshort].
  - assert (length (take max str ++ [0x2026]) = S max) as Hlen
      by (rewrite length_app, length_take; simpl; lia).
    rewrite Hlen. split; [lia|]. split; [lia|]. split; [done|].
    assert (take max (take max str ++ [0x2026]) = take max str) as Htake.
    { rewrite take_app_le by (rewrite length_take; lia).
      rewrite take_take. f_equal. lia. }
    split; [exact Htake|].
    destruct (Nat.ltb_spec max (S max)) as [_|]; [|lia].
    by rewrite Htake.
  - split; [lia|]. split; [done|]. split; [lia|]. split; [done|].
    by destruct (Nat.ltb_spec max (length str)) as [|_]; [lia|].
Qed.

Lemma truncate_bounds_witness :
  truncate (lit "Engineering") 3 = lit "Eng" ++ [0x2026]
  ∧ length (truncate (lit "Engineering") 3) = 4%nat.
Proof.
  exact (proj1 (proj2 (proj2 (truncate_bounds (lit "Engineering") 3)))
           ltac:(simpl; lia)).
Defined.

(** X20.  [fetchUserInfo] never throws.  It answers [null] when the
    request is rejected, when the status is outside 200..299 and when the
    body cannot be decoded; otherwise it answers the user of the body, with
    the token it was called with. *)
Theorem fetchUserInfo_never_throws
    (token : jsstring) (outcome : Api.settled Api.UserInfo) :
  ∃ answer : option User.t,
    Api.fetchUserInfo token outcome = Return answer
    ∧ (∀ u, answer = Some u →
         User.token u = token
         ∧ ∃ response data,
             outcome = Api.Fulfilled response
             ∧ Api.ok response = true
             ∧ Api.json response = Return data
             ∧ User.email u = Api.info_email data
             ∧ User.name u = Api.info_name data
             ∧ User.picture u = Api.info_picture data)
    ∧ (answer = None →
         (∃ e, outcome = Api.Rejected e)
         ∨ ∃ response, outcome = Api.Fulfilled response
                       ∧ (Api.ok response = false
                          ∨ ∃ e, Api.json response = Throw e)).
Proof.
  unfold Api.fetchUserInfo. destruct outcome as [response|e].
  - destruct (Api.ok response) eqn:Hok; simpl.
    + destruct (Api.json response) as [data|e] eqn:Hjson.
      * eexists. split; [reflexivity|]. split; [|done].
        intros u [= <-]. split; [done|]. by exists response, data.
      * exists None. split; [done|]. split; [done|]. intros _. right.
        exists response. split; [done|]. right. by exists e.
    + exists None. split; [done|]. split; [done|]. intros _. right.
      exists response. split; [done|]. by left.
  - exists None. split; [done|]. split; [done|]. intros _. left. by exists e.
Qed.

End truncation.
